(** * Journal entry templates: the line computation engine

    A shallow embedding of [account_move_template/models/account_move_template.py]
    (models [account.move.template] and [account.move.template.line]) and the
    properties of [compute_lines], [eval_computed_line] and
    [check_python_code].

    Python dictionaries are mutable objects: [compute_lines] receives a
    reference to the caller's dictionary and works on it in place.  The
    embedding therefore keeps a store of dictionary objects and passes
    references; every operation is a computation in a state-and-exception
    monad over that store. *)

From stdpp Require Import gmap strings list fin_maps sorting pretty.
From Stdlib Require Import Ascii QArith Qround Qabs.

Local Open Scope Z_scope.
Set Warnings "-clear-no-such-hyp".
Set Default Proof Using "Type".

(** ** Records of the two models *)

(** [type = fields.Selection([("computed", ...), ("input", ...)], required=True)] *)
Inductive line_type := computed | input.

(** [move_line_type = fields.Selection([("cr", "Credit"), ("dr", "Debit")])] *)
Inductive direction := cr | dr.

Global Instance line_type_eq_dec : EqDecision line_type.
Proof. solve_decision. Defined.

Global Instance direction_eq_dec : EqDecision direction.
Proof. solve_decision. Defined.

(** A row of [account.move.template.line].  [python_code] is a [Text] field:
    it reads as [False] (here [None]) when it was never set.  The references
    to accounts, partners, taxes and the like are not read by the engine and
    are left out. *)
Record line := {
  line_id : Z;
  name : string;
  sequence : Z;
  type : line_type;
  python_code : option string;
  move_line_type : direction
}.

Global Instance line_eq_dec : EqDecision line.
Proof. solve_decision. Defined.

(** ** Exceptions *)

(** The four messages [compute_lines] and [eval_computed_line] put in a
    [UserError].  The two formula messages are formatted with
    [(line.sequence, line.python_code)]. *)
Inductive user_message :=
  | deleted_line_in_wizard
      (* "You deleted a line in the wizard. This is not allowed: ..." *)
  | added_line_in_wizard
      (* "You added a line in the wizard. This is not allowed: ..." *)
  | impossible_to_compute (seq : Z) (code : option string)
      (* "Impossible to compute the formula of line with sequence %s
         (formula: %s). Check that the lines used in the formula really
         exists and have a lower sequence than the current line." *)
  | wrong_formula_syntax (seq : Z) (code : option string).
      (* "Impossible to compute the formula of line with sequence %s
         (formula: %s): the syntax of the formula is wrong." *)

(** Python exceptions, by class.  [ValueError] stands for the class and its
    subclasses, as an [except ValueError] clause catches them. *)
Inductive exn :=
  | UserError (msg : user_message)
  | ValidationError (seq : Z)
      (* "Python Code must be set for computed line with sequence %d." *)
  | KeyError (key : Z)
  | ValueError
  | SyntaxError
  | ZeroDivisionError
  | OtherException (class_name : string).

Global Instance user_message_eq_dec : EqDecision user_message.
Proof. solve_decision. Defined.

Global Instance exn_eq_dec : EqDecision exn.
Proof. solve_decision. Defined.

(** The names the specification gives to the user-facing errors. *)
Definition MissingInputLine : exn := UserError deleted_line_in_wizard.
Definition ExtraneousInputLine : exn := UserError added_line_in_wizard.
Definition FormulaReferenceError (seq : Z) (code : option string) : exn :=
  UserError (impossible_to_compute seq code).
Definition FormulaSyntaxError (seq : Z) (code : option string) : exn :=
  UserError (wrong_formula_syntax seq code).
Definition MissingFormula (seq : Z) : exn := ValidationError seq.

Inductive outcome (A : Type) :=
  | Return (a : A)
  | Raise (e : exn).
Arguments Return {A} a.
Arguments Raise {A} e.

(** ** Ordering of the lines: [_order = "sequence, id"] *)

Definition line_order (l1 l2 : line) : Prop :=
  sequence l1 < sequence l2 ∨ (sequence l1 = sequence l2 ∧ line_id l1 ≤ line_id l2).

Global Instance line_order_dec : RelDecision line_order.
Proof. intros l1 l2. unfold line_order. apply _. Defined.

Global Instance line_order_total : Total line_order.
Proof. intros l1 l2. unfold line_order. lia. Qed.

Global Instance line_order_trans : Transitive line_order.
Proof. intros l1 l2 l3. unfold line_order. lia. Qed.

(** [not line.python_code]: [False] and the empty string are falsy. *)
Definition no_python_code (l : line) : bool :=
  match python_code l with
  | None => true
  | Some s => bool_decide (s = EmptyString)
  end.

(** [AccountMoveTemplateLine.check_python_code], the [@api.constrains("type",
    "python_code")] check run over the recordset being saved. *)
Fixpoint check_python_code (self : list line) : outcome unit :=
  match self with
  | [] => Return tt
  | l :: rest =>
      if bool_decide (type l = computed) && no_python_code l
      then Raise (ValidationError (sequence l))
      else check_python_code rest
  end.

(** ** The engine, over an arbitrary amount type *)

Section engine.

(** Amounts are Python numbers; the engine only stores them, hands them to
    the formula evaluator and to [float_round]. *)
Context {amount : Type}.

(** [odoo.tools.safe_eval.safe_eval(expr, globals_dict)] and
    [odoo.tools.float_round(value, precision_rounding=prec)] are library
    functions of the framework.  Each either yields a value or raises. *)
Variable safe_eval : option string → gmap string amount → amount + exn.
Variable float_round : amount → amount → amount + exn.

(** A template: the currency rounding of its company
    ([company_id.currency_id.rounding]) and the rows of its [One2many]. *)
Record template := {
  rounding : amount;
  line_rows : list line
}.

(** Reading [self.line_ids] yields the rows in the order of the model. *)
Definition line_ids (self : template) : list line :=
  merge_sort line_order (line_rows self).

(** [self.line_ids.filtered(lambda x: x.type == "input")] and
    [self.line_ids.filtered(lambda x: x.type == "computed")]. *)
Definition input_lines (self : template) : list line :=
  filter (λ x, type x = input) (line_ids self).
Definition computed_lines (self : template) : list line :=
  filter (λ x, type x = computed) (line_ids self).

(** The SQL constraint [sequence_template_uniq]: [unique(template_id, sequence)]. *)
Definition sequence_template_uniq (self : template) : Prop :=
  NoDup (sequence <$> line_rows self).

(** *** Store and monad *)

Definition loc := positive.

(** The store maps a reference to the dictionary object it denotes; a
    reference the store does not hold reads as the empty dictionary.  A
    computation takes the store and yields a result or an exception, and the
    store as it has left it: what was written before an exception stays
    written. *)
Definition py (A : Type) : Type :=
  gmap loc (gmap Z amount) → outcome A * gmap loc (gmap Z amount).

Definition ret {A} (a : A) : py A := λ h, (Return a, h).
Definition raise {A} (e : exn) : py A := λ h, (Raise e, h).
Definition bind {A B} (c : py A) (k : A → py B) : py B :=
  λ h, match c h with
       | (Return a, h') => k a h'
       | (Raise e, h') => (Raise e, h')
       end.

Notation "x <~ c ;; k" := (bind c (λ x, k))
  (at level 100, c at next level, right associativity).
Notation "c ;;; k" := (bind c (λ _, k))
  (at level 100, right associativity).

(** [for x in l: body], with the local variables the body updates as [s]. *)
Fixpoint for_in {A S} (l : list A) (body : A → S → py S) (s : S) : py S :=
  match l with
  | [] => ret s
  | x :: rest => s' <~ body x s ;; for_in rest body s'
  end.

(** [key in d] *)
Definition dict_contains (d : loc) (key : Z) : py bool :=
  λ h, (Return (bool_decide (is_Some ((h !!! d) !! key))), h).

(** [d[key]] *)
Definition dict_getitem (d : loc) (key : Z) : py amount :=
  λ h, match (h !!! d) !! key with
       | Some v => (Return v, h)
       | None => (Raise (KeyError key), h)
       end.

(** [d[key] = v]: the object [d] refers to is updated in place. *)
Definition dict_setitem (d : loc) (key : Z) (v : amount) : py unit :=
  λ h, (Return tt, <[d := <[key := v]> (h !!! d)]> h).

(** [d.items()] *)
Definition dict_items (d : loc) : py (list (Z * amount)) :=
  λ h, (Return (map_to_list (h !!! d)), h).

(** [d.copy()].  The copy made by [compute_lines] is a fresh object held by a
    local variable only; it is kept as a value instead of a store cell. *)
Definition dict_copy (d : loc) : py (gmap Z amount) :=
  λ h, (Return (h !!! d), h).

(** [d.pop(key)] on such a local dictionary: [KeyError] when [key] is absent. *)
Definition local_pop (d : gmap Z amount) (key : Z) : py (gmap Z amount) :=
  match d !! key with
  | Some _ => ret (delete key d)
  | None => raise (KeyError key)
  end.

(** *** [AccountMoveTemplate.eval_computed_line] *)

(** ["L%d" % seq] *)
Definition L_name (seq : Z) : string := "L" +:+ pretty seq.

(** The loop filling [safe_eval_dict] from [sequence2amount.items()]. *)
Definition build_safe_eval_dict (items : list (Z * amount)) : gmap string amount :=
  foldl (λ safe_eval_dict '(seq, a), <[L_name seq := a]> safe_eval_dict) ∅ items.

(** The two [except] clauses of [eval_computed_line]: [ValueError] and
    [SyntaxError] become a [UserError]; any other exception is not caught. *)
Definition except_clauses (l : line) (e : exn) : exn :=
  match e with
  | ValueError => UserError (impossible_to_compute (sequence l) (python_code l))
  | SyntaxError => UserError (wrong_formula_syntax (sequence l) (python_code l))
  | _ => e
  end.

Definition eval_computed_line (l : line) (sequence2amount : loc) : py unit :=
  items <~ dict_items sequence2amount ;;
  let safe_eval_dict := build_safe_eval_dict items in
  match safe_eval (python_code l) safe_eval_dict with
  | inl val => dict_setitem sequence2amount (sequence l) val
  | inr e => raise (except_clauses l e)
  end.

(** *** [AccountMoveTemplate.compute_lines] *)

(** Lines 73-81: the body of the loop over the input lines. *)
Definition pop_input_line (sequence2amount : loc) (l : line)
    (input_sequence2amount : gmap Z amount) : py (gmap Z amount) :=
  present <~ dict_contains sequence2amount (sequence l) ;;
  if negb present then raise (UserError deleted_line_in_wizard)
  else local_pop input_sequence2amount (sequence l).

(** Lines 71-89: the reconciliation of the input lines with the keys supplied. *)
Definition reconcile_inputs (self : template) (sequence2amount : loc) : py unit :=
  input_sequence2amount <~ dict_copy sequence2amount ;;
  input_sequence2amount <~
    for_in (input_lines self)
      (pop_input_line sequence2amount) input_sequence2amount ;;
  if bool_decide (input_sequence2amount ≠ ∅)
  then raise (UserError added_line_in_wizard)
  else ret tt.

(** Lines 91-94: the body of the loop over the computed lines.  The call of
    [float_round] is not in the [try] of [eval_computed_line]: what it raises
    is raised by [compute_lines], the value of the formula being stored
    already. *)
Definition compute_line (prec : amount) (sequence2amount : loc) (l : line) : py unit :=
  eval_computed_line l sequence2amount ;;;
  v <~ dict_getitem sequence2amount (sequence l) ;;
  match float_round v prec with
  | inl rounded => dict_setitem sequence2amount (sequence l) rounded
  | inr e => raise e
  end.

(** Lines 90-94: the loop over the computed lines. *)
Definition compute_computed_lines (prec : amount) (lines : list line)
    (sequence2amount : loc) : py unit :=
  for_in lines (λ l _, compute_line prec sequence2amount l) tt.

Definition compute_lines (self : template) (sequence2amount : loc) : py loc :=
  let prec := rounding self in
  reconcile_inputs self sequence2amount ;;;
  compute_computed_lines prec (computed_lines self) sequence2amount ;;;
  ret sequence2amount.

End engine.

Arguments template amount : clear implicits.
Arguments input_lines {amount} self.
Arguments computed_lines {amount} self.
Arguments line_ids {amount} self.

(** ** A concrete formula evaluator and rounding function

    The engine above is parametric in the evaluator.  To run it on concrete
    templates, amounts are taken to be exact rationals and the two library
    functions are given executable models. *)

Inductive token :=
  | TNum (q : Q)
  | TName (s : string)
  | TPlus | TMinus | TStar | TSlash | TLParen | TRParen.

Inductive binop := Add | Sub | Mul | Div.

(** Arithmetic formulas: literals, bound names, unary sign, the four
    operators. *)
Inductive formula :=
  | Num (q : Q)
  | Name (s : string)
  | UMinus (e : formula)
  | UPlus (e : formula)
  | BinOp (op : binop) (e1 e2 : formula).

Definition is_digit (c : ascii) : bool :=
  let n := N_of_ascii c in ((48 <=? n) && (n <=? 57))%N.

Definition is_name_start (c : ascii) : bool :=
  let n := N_of_ascii c in
  (((65 <=? n) && (n <=? 90)) || ((97 <=? n) && (n <=? 122)) || (n =? 95))%N.

Definition is_name_char (c : ascii) : bool := is_name_start c || is_digit c.

Definition is_space (c : ascii) : bool :=
  let n := N_of_ascii c in ((n =? 32) || (n =? 9))%N.

Fixpoint span (p : ascii → bool) (cs : list ascii) : list ascii * list ascii :=
  match cs with
  | c :: rest =>
      if p c then let '(taken, others) := span p rest in (c :: taken, others)
      else ([], cs)
  | [] => ([], [])
  end.

Definition digits_value (ds : list ascii) : N :=
  foldl (λ acc c, 10 * acc + (N_of_ascii c - 48))%N 0%N ds.

(** The value of the literal [int_part.frac_part]. *)
Definition decimal_value (int_part frac_part : list ascii) : Q :=
  let scale := (10 ^ N.of_nat (length frac_part))%N in
  Qred (Z.of_N (digits_value int_part * scale + digits_value frac_part)
        # Pos.of_nat (N.to_nat scale)).

Fixpoint lex (fuel : nat) (cs : list ascii) : option (list token) :=
  match fuel with
  | O => None
  | S fuel =>
      match cs with
      | [] => Some []
      | c :: rest =>
          if is_space c then lex fuel rest
          else if is_digit c then
            let '(int_part, after_int) := span is_digit cs in
            match after_int with
            | "."%char :: after_dot =>
                let '(frac_part, after_frac) := span is_digit after_dot in
                cons (TNum (decimal_value int_part frac_part)) <$> lex fuel after_frac
            | _ => cons (TNum (decimal_value int_part [])) <$> lex fuel after_int
            end
          else if is_name_start c then
            let '(chars, after_name) := span is_name_char cs in
            cons (TName (String.string_of_list_ascii chars)) <$> lex fuel after_name
          else
            match c with
            | "+"%char => cons TPlus <$> lex fuel rest
            | "-"%char => cons TMinus <$> lex fuel rest
            | "*"%char => cons TStar <$> lex fuel rest
            | "/"%char => cons TSlash <$> lex fuel rest
            | "("%char => cons TLParen <$> lex fuel rest
            | ")"%char => cons TRParen <$> lex fuel rest
            | _ => None
            end
      end
  end.

(** Recursive descent: sums of products of signed atoms. *)
Fixpoint parse_sum (fuel : nat) (ts : list token) : option (formula * list token) :=
  match fuel with
  | O => None
  | S fuel =>
      '(e, ts') ← parse_product fuel ts;
      parse_sum_rest fuel e ts'
  end
with parse_sum_rest (fuel : nat) (e : formula) (ts : list token)
    : option (formula * list token) :=
  match fuel with
  | O => None
  | S fuel =>
      match ts with
      | TPlus :: ts' =>
          '(e2, ts'') ← parse_product fuel ts';
          parse_sum_rest fuel (BinOp Add e e2) ts''
      | TMinus :: ts' =>
          '(e2, ts'') ← parse_product fuel ts';
          parse_sum_rest fuel (BinOp Sub e e2) ts''
      | _ => Some (e, ts)
      end
  end
with parse_product (fuel : nat) (ts : list token) : option (formula * list token) :=
  match fuel with
  | O => None
  | S fuel =>
      '(e, ts') ← parse_atom fuel ts;
      parse_product_rest fuel e ts'
  end
with parse_product_rest (fuel : nat) (e : formula) (ts : list token)
    : option (formula * list token) :=
  match fuel with
  | O => None
  | S fuel =>
      match ts with
      | TStar :: ts' =>
          '(e2, ts'') ← parse_atom fuel ts';
          parse_product_rest fuel (BinOp Mul e e2) ts''
      | TSlash :: ts' =>
          '(e2, ts'') ← parse_atom fuel ts';
          parse_product_rest fuel (BinOp Div e e2) ts''
      | _ => Some (e, ts)
      end
  end
with parse_atom (fuel : nat) (ts : list token) : option (formula * list token) :=
  match fuel with
  | O => None
  | S fuel =>
      match ts with
      | TNum q :: ts' => Some (Num q, ts')
      | TName s :: ts' => Some (Name s, ts')
      | TMinus :: ts' => '(e, ts'') ← parse_atom fuel ts'; Some (UMinus e, ts'')
      | TPlus :: ts' => '(e, ts'') ← parse_atom fuel ts'; Some (UPlus e, ts'')
      | TLParen :: ts' =>
          '(e, ts'') ← parse_sum fuel ts';
          match ts'' with
          | TRParen :: ts''' => Some (e, ts''')
          | _ => None
          end
      | _ => None
      end
  end.

Definition parse_formula (text : string) : option formula :=
  let cs := String.list_ascii_of_string text in
  ts ← lex (S (length cs)) cs;
  '(e, unread) ← parse_sum (5 * length ts + 5) ts;
  match unread with
  | [] => Some e
  | _ => None
  end.

(** Evaluation of a parsed formula: an unbound name raises [NameError], a
    division by zero raises [ZeroDivisionError]. *)
Fixpoint eval_formula (globals_dict : gmap string Q) (e : formula) : Q + exn :=
  match e with
  | Num q => inl q
  | Name s =>
      match globals_dict !! s with
      | Some v => inl v
      | None => inr (OtherException "NameError")
      end
  | UMinus e1 =>
      match eval_formula globals_dict e1 with
      | inl v => inl (Qred (- v))
      | inr x => inr x
      end
  | UPlus e1 => eval_formula globals_dict e1
  | BinOp op e1 e2 =>
      match eval_formula globals_dict e1 with
      | inr x => inr x
      | inl v1 =>
          match eval_formula globals_dict e2 with
          | inr x => inr x
          | inl v2 =>
              match op with
              | Add => inl (Qred (v1 + v2))
              | Sub => inl (Qred (v1 - v2))
              | Mul => inl (Qred (v1 * v2))
              | Div => if Qeq_bool v2 0 then inr ZeroDivisionError
                       else inl (Qred (v1 / v2))
              end
          end
      end
  end.

(** Modelled from the spec: [odoo.tools.safe_eval.safe_eval], a function of
    the framework the module imports, not of this repository.  The formula
    is read with the small grammar of section 9 ([+ - * / ( )], decimal
    literals and bound names).  Section 4.1 has two kinds of failure: text
    that does not parse raises [SyntaxError], and a failure while
    evaluating, as on a name that is not bound, is a runtime value error,
    [ValueError]. *)
Definition safe_eval_model (expr : option string) (globals_dict : gmap string Q)
    : Q + exn :=
  match expr with
  | None => inr ValueError
  | Some text =>
      match parse_formula text with
      | None => inr SyntaxError
      | Some e =>
          match eval_formula globals_dict e with
          | inl v => inl v
          | inr _ => inr ValueError
          end
      end
  end.

(** Rounding of [q] to the nearest integer, halves away from zero. *)
Definition round_half_up (q : Q) : Z :=
  if Qle_bool 0 q then Qfloor (q + (1 # 2)) else Qceiling (q - (1 # 2)).

(** Modelled from the spec: [odoo.tools.float_round] with its default
    rounding method, a function of the framework: the value is snapped to
    the nearest multiple of the rounding increment.  On exact rationals it
    always yields a value. *)
Definition float_round_model (value precision_rounding : Q) : Q + exn :=
  if Qeq_bool precision_rounding 0 || Qeq_bool value 0 then inl 0%Q
  else inl (Qred (inject_Z (round_half_up (value / precision_rounding))
                  * precision_rounding)).

(** The engine takes any rounding function.  This one gives up beyond a
    bound, as a rounding does whose result it cannot represent; it serves to
    run [compute_lines] on the path where [float_round] raises. *)
Definition float_round_within (bound : Q) (value precision_rounding : Q)
    : Q + exn :=
  if Qle_bool (Qabs value) bound then float_round_model value precision_rounding
  else inr (OtherException "OverflowError").

(** The engine instantiated with the two models. *)
Definition run_compute_lines (self : template Q) (sequence2amount : loc)
    : gmap loc (gmap Z Q) → outcome loc * gmap loc (gmap Z Q) :=
  compute_lines safe_eval_model float_round_model self sequence2amount.

Definition mk_line (i seq : Z) (t : line_type) (code : option string) : line :=
  {| line_id := i; name := EmptyString; sequence := seq; type := t;
     python_code := code; move_line_type := dr |}.

(** Scenario 1 of the specification: two inputs and their sum. *)
Definition template_sum : template Q :=
  {| rounding := (1 # 100)%Q;
     line_rows := [ mk_line 3 3 computed (Some "L1+L2");
                    mk_line 1 1 input None;
                    mk_line 2 2 input None ] |}.

(** A store with one dictionary, the one of the caller. *)
Definition caller_dict : loc := 1%positive.
Definition store_with (sequence2amount : gmap Z Q) : gmap loc (gmap Z Q) :=
  {[ caller_dict := sequence2amount ]}.

Definition known_sum : gmap Z Q := {[ 1 := (100 # 1)%Q; 2 := (50005 # 1000)%Q ]}.
Definition known_one : gmap Z Q := {[ 1 := (100 # 1)%Q ]}.

(** An input, a line computed from it, and a line whose formula refers to a
    sequence that no line has. *)
Definition template_chain : template Q :=
  {| rounding := (1 # 100)%Q;
     line_rows := [ mk_line 1 1 input None;
                    mk_line 2 2 computed (Some "L1*2");
                    mk_line 3 3 computed (Some "L9") ] |}.

(** A computed line whose formula refers to the input line after it. *)
Definition template_forward : template Q :=
  {| rounding := (1 # 100)%Q;
     line_rows := [ mk_line 1 1 computed (Some "L2");
                    mk_line 2 2 input None ] |}.

(** A computed line whose formula does not parse (scenario 5). *)
Definition template_malformed : template Q :=
  {| rounding := (1 # 100)%Q;
     line_rows := [ mk_line 1 1 input None;
                    mk_line 2 2 computed (Some "L1+") ] |}.

(** A third of the input, then three times that third. *)
Definition third_line : line := mk_line 2 2 computed (Some "L1/3").
Definition triple_line : line := mk_line 3 3 computed (Some "L2*3").
Definition template_thirds : template Q :=
  {| rounding := (1 # 100)%Q;
     line_rows := [ mk_line 1 1 input None; third_line; triple_line ] |}.
Definition known_unit : gmap Z Q := {[ 1 := (1 # 1)%Q ]}.
Definition known_ten : gmap Z Q := {[ 2 := (10 # 1)%Q ]}.

(** Two input lines with the same sequence, as no stored template has them. *)
Definition template_duplicate : template Q :=
  {| rounding := (1 # 100)%Q;
     line_rows := [ mk_line 1 1 input None; mk_line 2 1 input None ] |}.

(** A line is in order for [check_python_code] when it is not a computed
    line without formula. *)
Definition has_formula_if_computed (l : line) : Prop :=
  type l = input ∨ no_python_code l = false.

(** Goals about concrete runs are settled by evaluation. *)
Ltac by_evaluation := vm_compute; reflexivity.
Ltac decided_by_evaluation :=
  apply (bool_decide_unpack _); vm_compute; exact I.
Ltac uniq_by_evaluation :=
  unfold sequence_template_uniq; decided_by_evaluation.

(** ** Properties of the evaluation context *)

Global Instance L_name_inj : Inj (=) (=) L_name.
Proof.
  intros x y H. apply (inj pretty).
  change (String "L" (pretty x) = String "L" (pretty y)) in H.
  by injection H.
Qed.

Lemma foldl_reverse_foldr_insert {A} (items : list (Z * A)) :
  foldl (λ d '(seq, a), <[L_name seq := a]> d) (∅ : gmap string A) (reverse items)
  = list_to_map (prod_map L_name id <$> items).
Proof.
  induction items as [|[seq a] items IH]; [done|].
  rewrite reverse_cons, foldl_app. simpl. by rewrite IH.
Qed.

Lemma fst_prod_map_names {A} (items : list (Z * A)) :
  (prod_map L_name id <$> items).*1 = L_name <$> items.*1.
Proof. induction items as [|[seq a] items IH]; [done|]. simpl. by f_equal. Qed.

Section context_facts.
Context {amount : Type}.

Lemma build_safe_eval_dict_kmap (m : gmap Z amount) :
  build_safe_eval_dict (map_to_list m) = kmap L_name m.
Proof.
  unfold build_safe_eval_dict, kmap.
  rewrite <- (reverse_involutive (map_to_list m)) at 1.
  rewrite foldl_reverse_foldr_insert.
  apply list_to_map_proper.
  - rewrite fst_prod_map_names. apply (NoDup_fmap_2 L_name).
    rewrite reverse_Permutation. apply NoDup_fst_map_to_list.
  - by rewrite reverse_Permutation.
Qed.

(** A sequence in the dictionary is bound under its name, to its amount. *)
Lemma lookup_safe_eval_dict (m : gmap Z amount) (seq : Z) :
  build_safe_eval_dict (map_to_list m) !! L_name seq = m !! seq.
Proof. rewrite build_safe_eval_dict_kmap. apply (lookup_kmap L_name). Qed.

(** Nothing else is bound. *)
Lemma safe_eval_dict_bound (m : gmap Z amount) (s : string) :
  is_Some (build_safe_eval_dict (map_to_list m) !! s)
  ↔ ∃ seq, s = L_name seq ∧ seq ∈ dom m.
Proof.
  rewrite build_safe_eval_dict_kmap, (lookup_kmap_is_Some L_name).
  by setoid_rewrite elem_of_dom.
Qed.

End context_facts.

(** ** The loops of [compute_lines] *)

Lemma gset_subseteq_of_difference (X Y : gset Z) : ∅ = X ∖ Y → X ⊆ Y.
Proof.
  intros Hd x Hx. destruct (decide (x ∈ Y)) as [|Hn]; [done|].
  exfalso. apply (not_elem_of_empty (C:=gset Z) x). rewrite Hd.
  by apply elem_of_difference.
Qed.

Lemma gset_eq_of_difference (X Y : gset Z) : Y ⊆ X → ∅ = X ∖ Y → X = Y.
Proof.
  intros Hsub Hd%gset_subseteq_of_difference. apply set_eq. intros x.
  split; auto.
Qed.

Lemma gset_difference_empty (X Y : gset Z) : X ⊆ Y → X ∖ Y = ∅.
Proof. set_solver. Qed.

Section engine_facts.
Context {amount : Type}.

Implicit Types (h : gmap loc (gmap Z amount)) (m d : gmap Z amount).
Implicit Types (r : loc) (l : line) (ls : list line) (prec : amount).

Lemma for_in_app {A S} (l1 l2 : list A) (body : A → S → @py amount S) s h :
  for_in (l1 ++ l2) body s h =
  match for_in l1 body s h with
  | (Return s', h') => for_in l2 body s' h'
  | (Raise e, h') => (Raise e, h')
  end.
Proof.
  revert s h. induction l1 as [|x l1 IH]; intros s h; simpl.
  - done.
  - unfold bind. destruct (body x s h) as [[s'|e] h']; [apply IH|done].
Qed.

(** *** Reconciliation *)

Lemma pop_input_line_run r l d h :
  pop_input_line r l d h =
  (if decide (sequence l ∈ dom (h !!! r)) then
     match d !! sequence l with
     | Some _ => Return (delete (sequence l) d)
     | None => Raise (KeyError (sequence l))
     end
   else Raise MissingInputLine, h).
Proof.
  unfold pop_input_line, bind, dict_contains, local_pop, raise, ret.
  case_bool_decide as Hs; simpl.
  - rewrite decide_True by by apply elem_of_dom. by destruct (d !! sequence l).
  - rewrite decide_False; [done|]. by rewrite elem_of_dom.
Qed.

(** The reconciliation loop reads the store and leaves it as it is. *)
Lemma reconcile_loop_store r ls d h x h' :
  for_in ls (pop_input_line r) d h = (x, h') → h' = h.
Proof.
  revert d. induction ls as [|l ls IH]; intros d; simpl.
  - unfold ret. congruence.
  - unfold bind. rewrite pop_input_line_run.
    case_decide; [destruct (d !! sequence l)|]; eauto; congruence.
Qed.

(** When it completes, every line was supplied and the copy has lost the
    keys of the lines. *)
Lemma reconcile_loop_Return r ls d h d' h' :
  for_in ls (pop_input_line r) d h = (Return d', h') →
  Forall (λ l, sequence l ∈ dom (h !!! r)) ls
  ∧ list_to_set (sequence <$> ls) ⊆ dom d
  ∧ dom d' = dom d ∖ list_to_set (sequence <$> ls).
Proof.
  revert d. induction ls as [|l ls IH]; intros d; simpl.
  - unfold ret. intros [= <- _]. split_and!; [done|set_solver..].
  - unfold bind. rewrite pop_input_line_run.
    case_decide; [|done]. destruct (d !! sequence l) eqn:Hd; [|done].
    intros (Hall & Hsub & Hdom)%IH. rewrite dom_delete_L in Hsub, Hdom.
    assert (sequence l ∈ dom d) by (apply elem_of_dom; eauto).
    split_and!; [by constructor|set_solver..].
Qed.

(** With pairwise distinct sequences the loop never pops a missing key: it
    stops at the first line that was not supplied, or completes. *)
Lemma reconcile_loop_NoDup r ls d h :
  NoDup (sequence <$> ls) →
  (∀ l, l ∈ ls → sequence l ∈ dom (h !!! r) → sequence l ∈ dom d) →
  for_in ls (pop_input_line r) d h =
  (if decide (Forall (λ l, sequence l ∈ dom (h !!! r)) ls)
   then Return (foldl (λ d l, delete (sequence l) d) d ls)
   else Raise MissingInputLine, h).
Proof.
  revert d. induction ls as [|l ls IH]; intros d Hnd Hd; cbn [for_in foldl].
  - unfold ret. destruct (decide _) as [|Hn]; [done|]. destruct Hn. constructor.
  - rewrite fmap_cons in Hnd. apply NoDup_cons in Hnd as [Hl Hnd]. unfold bind.
    rewrite pop_input_line_run. destruct (decide (sequence l ∈ dom (h !!! r))) as [Hin|Hin].
    + destruct (d !! sequence l) eqn:Hdl.
      * rewrite IH; [|done|].
        -- destruct (decide (Forall _ ls)) as [Hall|Hall].
           ++ by rewrite decide_True by by constructor.
           ++ rewrite decide_False; [done|]. by intros [_ ?]%Forall_cons.
        -- intros l' Hl' Hm. rewrite dom_delete_L.
           assert (sequence l' ≠ sequence l).
           { intros Heq. apply Hl. rewrite <- Heq. by apply list_elem_of_fmap_2. }
           apply elem_of_difference. split; [|set_solver].
           apply Hd; [by right|done].
      * exfalso. apply (not_elem_of_dom d (sequence l)); [done|].
        apply Hd; [by left|done].
    + rewrite decide_False; [done|]. by intros [? _]%Forall_cons.
Qed.

Lemma dom_foldl_delete ls d :
  dom (foldl (λ d l, delete (sequence l) d) d ls)
  = dom d ∖ list_to_set (sequence <$> ls).
Proof.
  revert d. induction ls as [|l ls IH]; intros d; simpl; [set_solver|].
  rewrite IH, dom_delete_L. set_solver.
Qed.

Lemma reconcile_inputs_store (self : template amount) r h x h' :
  reconcile_inputs self r h = (x, h') → h' = h.
Proof.
  unfold reconcile_inputs, bind, dict_copy.
  destruct (for_in _ _ _ h) as [[d|e] h1] eqn:Hloop;
    apply reconcile_loop_store in Hloop as ->.
  - case_bool_decide; unfold raise, ret; congruence.
  - congruence.
Qed.

(** The reconciliation passes only if the keys supplied are exactly the
    sequences of the input lines. *)
Lemma reconcile_inputs_Return (self : template amount) r h h' :
  reconcile_inputs self r h = (Return tt, h') →
  dom (h !!! r) = list_to_set (sequence <$> input_lines self).
Proof.
  unfold reconcile_inputs, bind, dict_copy.
  destruct (for_in _ _ _ h) as [[d|e] h1] eqn:Hloop; [|done].
  apply reconcile_loop_Return in Hloop as (Hall & Hsub & Hdom).
  case_bool_decide as Hd; [done|]. intros _.
  assert (d = ∅) as -> by (destruct (decide (d = ∅)); [done|by destruct Hd]).
  rewrite dom_empty_L in Hdom. by apply gset_eq_of_difference.
Qed.

Lemma reconcile_inputs_NoDup (self : template amount) r h :
  let inputs := input_lines self in
  NoDup (sequence <$> inputs) →
  reconcile_inputs self r h =
  (if decide (Forall (λ l, sequence l ∈ dom (h !!! r)) inputs) then
     if decide (dom (h !!! r) ⊆ list_to_set (sequence <$> inputs))
     then Return tt else Raise ExtraneousInputLine
   else Raise MissingInputLine, h).
Proof.
  intros inputs Hnd. unfold reconcile_inputs, bind, dict_copy. fold inputs.
  rewrite reconcile_loop_NoDup by done.
  destruct (decide (Forall _ inputs)) as [Hall|Hall]; [|done].
  pose proof (dom_foldl_delete inputs (h !!! r)) as Hdom.
  case_bool_decide as Hd; unfold raise, ret.
  - rewrite decide_False; [done|]. intros Hsub. apply Hd.
    apply (dom_empty_inv_L (D:=gset Z)). rewrite Hdom.
    by apply gset_difference_empty.
  - rewrite decide_True; [done|].
    assert (foldl (λ d l, delete (sequence l) d) (h !!! r) inputs = ∅) as Hd'
      by (destruct (decide (foldl (λ d l, delete (sequence l) d) (h !!! r) inputs = ∅));
          [done|by destruct Hd]).
    rewrite Hd', dom_empty_L in Hdom. by apply gset_subseteq_of_difference.
Qed.

(** *** Evaluation of the computed lines *)

Variable safe_eval : option string → gmap string amount → amount + exn.
Variable float_round : amount → amount → amount + exn.

(** One round of the loop: the formula is evaluated in the context built
    from the dictionary as it is, and the rounded result is what the
    dictionary holds afterwards; on an exception the dictionary is as
    before. *)
Lemma compute_line_run prec r l h :
  compute_line safe_eval float_round prec r l h =
  match safe_eval (python_code l) (build_safe_eval_dict (map_to_list (h !!! r))) with
  | inl v =>
      match float_round v prec with
      | inl rounded =>
          (Return tt, <[r := <[sequence l := rounded]> (h !!! r)]> h)
      | inr e => (Raise e, <[r := <[sequence l := v]> (h !!! r)]> h)
      end
  | inr e => (Raise (except_clauses l e), h)
  end.
Proof.
  unfold compute_line, eval_computed_line, bind, dict_items.
  destruct (safe_eval _ _) as [v|e]; [|done].
  unfold dict_setitem, dict_getitem.
  rewrite lookup_total_insert_eq, lookup_insert_eq.
  destruct (float_round v prec) as [rounded|e]; [|done].
  by rewrite lookup_total_insert_eq, !insert_insert_eq.
Qed.

Lemma compute_computed_lines_cons prec l ls r h :
  compute_computed_lines safe_eval float_round prec (l :: ls) r h =
  match compute_line safe_eval float_round prec r l h with
  | (Return _, h') => compute_computed_lines safe_eval float_round prec ls r h'
  | (Raise e, h') => (Raise e, h')
  end.
Proof.
  unfold compute_computed_lines. cbn [for_in]. unfold bind.
  by destruct (compute_line _ _ _ _ _ _) as [[[]|e] h'].
Qed.

Lemma compute_computed_lines_app prec ls1 ls2 r h :
  compute_computed_lines safe_eval float_round prec (ls1 ++ ls2) r h =
  match compute_computed_lines safe_eval float_round prec ls1 r h with
  | (Return _, h') => compute_computed_lines safe_eval float_round prec ls2 r h'
  | (Raise e, h') => (Raise e, h')
  end.
Proof.
  unfold compute_computed_lines. rewrite for_in_app.
  by destruct (for_in ls1 _ tt h) as [[[]|e] h'].
Qed.

(** The loop writes to the dictionary it was given and to nothing else, and
    there only under the sequences of the lines it went through. *)
Lemma compute_computed_lines_frame prec ls r h x h' :
  compute_computed_lines safe_eval float_round prec ls r h = (x, h') →
  (∀ r', r' ≠ r → h' !! r' = h !! r')
  ∧ (∀ k, k ∉ sequence <$> ls → (h' !!! r) !! k = (h !!! r) !! k)
  ∧ dom (h !!! r) ⊆ dom (h' !!! r)
  ∧ dom (h' !!! r) ⊆ dom (h !!! r) ∪ list_to_set (sequence <$> ls).
Proof.
  revert h. induction ls as [|l ls IH]; intros h.
  - intros [= _ <-]. split_and!; [done|done|set_solver..].
  - rewrite compute_computed_lines_cons, compute_line_run.
    destruct (safe_eval _ _) as [v|e];
      [destruct (float_round v prec) as [rounded|e]|].
    + intros (Hother & Hkeys & Hlow & Hup)%IH.
      rewrite lookup_total_insert_eq in Hkeys, Hlow, Hup.
      rewrite dom_insert_L in Hlow, Hup. split_and!.
      * intros r' Hr'. by rewrite Hother, lookup_insert_ne.
      * intros k Hk. rewrite fmap_cons, not_elem_of_cons in Hk.
        destruct Hk as [Hk1 Hk2]. by rewrite Hkeys, lookup_insert_ne.
      * set_solver.
      * rewrite fmap_cons. set_solver.
    + intros [= _ <-]. rewrite lookup_total_insert_eq, dom_insert_L. split_and!.
      * intros r' Hr'. by rewrite lookup_insert_ne.
      * intros k Hk. rewrite fmap_cons, not_elem_of_cons in Hk.
        destruct Hk as [Hk1 Hk2]. by rewrite lookup_insert_ne.
      * set_solver.
      * rewrite fmap_cons. set_solver.
    + intros [= _ <-]. split_and!; [done|done|set_solver..].
Qed.

(** When the loop completes, the dictionary has gained exactly the
    sequences of the lines. *)
Lemma compute_computed_lines_dom prec ls r h h' :
  compute_computed_lines safe_eval float_round prec ls r h = (Return tt, h') →
  dom (h' !!! r) = dom (h !!! r) ∪ list_to_set (sequence <$> ls).
Proof.
  revert h. induction ls as [|l ls IH]; intros h.
  - intros [= <-]. set_solver.
  - rewrite compute_computed_lines_cons, compute_line_run.
    destruct (safe_eval _ _) as [v|e]; [|done].
    destruct (float_round v prec) as [rounded|e]; [|done].
    intros ->%IH. rewrite lookup_total_insert_eq, dom_insert_L, fmap_cons.
    set_solver.
Qed.

End engine_facts.

(** ** The order of the lines *)

Section order_facts.
Context {amount : Type}.
Implicit Types (self : template amount) (l : line) (ls : list line).

Lemma line_ids_Permutation self : line_ids self ≡ₚ line_rows self.
Proof. apply merge_sort_Permutation. Qed.

Lemma NoDup_sequence_line_ids self :
  sequence_template_uniq self → NoDup (sequence <$> line_ids self).
Proof. unfold sequence_template_uniq. by rewrite line_ids_Permutation. Qed.

Lemma NoDup_sequence_filter (P : line → Prop) `{!∀ l, Decision (P l)} ls :
  NoDup (sequence <$> ls) → NoDup (sequence <$> filter P ls).
Proof.
  induction ls as [|l ls IH]; [done|].
  rewrite fmap_cons, NoDup_cons. intros [Hl Hnd]. rewrite filter_cons.
  destruct (decide (P l)); [|by auto].
  rewrite fmap_cons. apply NoDup_cons. split; [|by auto].
  intros (l' & Heq & [_ Hl']%list_elem_of_filter)%list_elem_of_fmap.
  apply Hl. rewrite Heq. by apply list_elem_of_fmap_2.
Qed.

Lemma sequence_determines_line ls l1 l2 :
  NoDup (sequence <$> ls) → l1 ∈ ls → l2 ∈ ls →
  sequence l1 = sequence l2 → l1 = l2.
Proof.
  induction ls as [|l ls IH]; [by intros _ ?%elem_of_nil|].
  rewrite fmap_cons, NoDup_cons. intros [Hl Hnd].
  intros [->|H1]%elem_of_cons [->|H2]%elem_of_cons Heq; [done| | |by auto].
  - destruct Hl. rewrite Heq. by apply list_elem_of_fmap_2.
  - destruct Hl. rewrite <- Heq. by apply list_elem_of_fmap_2.
Qed.

Lemma StronglySorted_filter {A} (R : relation A) (P : A → Prop)
    `{!∀ x, Decision (P x)} (xs : list A) :
  StronglySorted R xs → StronglySorted R (filter P xs).
Proof.
  induction 1 as [|x xs Hs IH Hx]; [constructor|].
  rewrite filter_cons. destruct (decide (P x)); [|done].
  constructor; [done|].
  apply Forall_forall. intros y [_ Hy]%list_elem_of_filter.
  by eapply Forall_forall in Hx.
Qed.

Lemma line_ids_sorted self : StronglySorted line_order (line_ids self).
Proof. apply StronglySorted_merge_sort; apply _. Qed.

Lemma computed_lines_sorted self : StronglySorted line_order (computed_lines self).
Proof. apply StronglySorted_filter, line_ids_sorted. Qed.

Lemma elem_of_input_lines self l :
  l ∈ input_lines self ↔ l ∈ line_ids self ∧ type l = input.
Proof. unfold input_lines. rewrite list_elem_of_filter. tauto. Qed.

Lemma elem_of_computed_lines self l :
  l ∈ computed_lines self ↔ l ∈ line_ids self ∧ type l = computed.
Proof. unfold computed_lines. rewrite list_elem_of_filter. tauto. Qed.

(** Every line is an input line or a computed line. *)
Lemma sequences_of_lines self :
  list_to_set (sequence <$> input_lines self)
  ∪ list_to_set (sequence <$> computed_lines self)
  =@{gset Z} list_to_set (sequence <$> line_ids self).
Proof.
  apply set_eq. intros k.
  rewrite elem_of_union, !elem_of_list_to_set, !list_elem_of_fmap.
  setoid_rewrite elem_of_input_lines. setoid_rewrite elem_of_computed_lines.
  split.
  - intros [(l & -> & ? & _)|(l & -> & ? & _)]; eauto.
  - intros (l & -> & Hl). destruct (type l) eqn:Ht; [right|left]; eauto.
Qed.

(** In the list of computed lines, the lines before a line have a
    sequence at most its own, and a strictly smaller one when sequences are
    unique; the lines after it have a sequence at least its own. *)
Lemma computed_lines_split_order self pre l post :
  computed_lines self = pre ++ l :: post →
  (∀ l', l' ∈ pre → sequence l' ≤ sequence l)
  ∧ (∀ l', l' ∈ post → sequence l ≤ sequence l').
Proof.
  intros Hsplit. pose proof (computed_lines_sorted self) as Hs.
  rewrite Hsplit in Hs. apply StronglySorted_app in Hs as (Hpre & _ & Hpost).
  apply StronglySorted_cons in Hpost as [Hpost _]. split.
  - intros l' Hl'. assert (line_order l' l) as Hle by (apply Hpre; [done|by left]).
    unfold line_order in Hle. lia.
  - intros l' Hl'. eapply Forall_forall in Hpost; [|done].
    unfold line_order in Hpost. lia.
Qed.

Lemma computed_lines_split_strict self pre l post :
  sequence_template_uniq self →
  computed_lines self = pre ++ l :: post →
  (∀ l', l' ∈ pre → sequence l' < sequence l)
  ∧ (∀ l', l' ∈ post → sequence l < sequence l').
Proof.
  intros Hu Hsplit.
  destruct (computed_lines_split_order _ _ _ _ Hsplit) as [Hpre Hpost].
  assert (NoDup (sequence <$> pre ++ l :: post)) as Hnd.
  { rewrite <- Hsplit. by apply NoDup_sequence_filter, NoDup_sequence_line_ids. }
  rewrite fmap_app, fmap_cons in Hnd.
  apply NoDup_app in Hnd as (_ & Hdisj & [Hl _]%NoDup_cons). split.
  - intros l' Hl'. specialize (Hpre l' Hl').
    assert (sequence l' ≠ sequence l); [|lia].
    intros Heq. apply (Hdisj (sequence l')); [by apply list_elem_of_fmap_2|].
    rewrite Heq. by left.
  - intros l' Hl'. specialize (Hpost l' Hl').
    assert (sequence l ≠ sequence l'); [|lia].
    intros Heq. apply Hl. rewrite Heq. by apply list_elem_of_fmap_2.
Qed.

End order_facts.

(** ** Properties of [compute_lines] *)

Section compute_lines_facts.
Context {amount : Type}.
Variable safe_eval : option string → gmap string amount → amount + exn.
Variable float_round : amount → amount → amount + exn.

Implicit Types (self : template amount) (h : gmap loc (gmap Z amount)).
Implicit Types (r : loc) (l : line) (ls : list line).

Lemma compute_lines_run self r h :
  compute_lines safe_eval float_round self r h =
  match reconcile_inputs self r h with
  | (Return _, h0) =>
      match compute_computed_lines safe_eval float_round (rounding self) (computed_lines self) r h0 with
      | (Return _, h') => (Return r, h')
      | (Raise e, h') => (Raise e, h')
      end
  | (Raise e, h0) => (Raise e, h0)
  end.
Proof.
  unfold compute_lines, bind, ret.
  destruct (reconcile_inputs self r h) as [[[]|e] h0]; [|done].
  by destruct (compute_computed_lines _ _ _ _ _ _) as [[[]|e] h'].
Qed.

(** The run as seen from one computed line: with the lines before it done,
    the outcome is decided by the evaluation of its formula in the context of
    the dictionary at that point. *)
Lemma compute_lines_at_line self r h pre l post h1 :
  reconcile_inputs self r h = (Return tt, h) →
  computed_lines self = pre ++ l :: post →
  compute_computed_lines safe_eval float_round (rounding self) pre r h = (Return tt, h1) →
  compute_lines safe_eval float_round self r h =
  match safe_eval (python_code l) (build_safe_eval_dict (map_to_list (h1 !!! r))) with
  | inl v =>
      match float_round v (rounding self) with
      | inl rounded =>
          match compute_computed_lines safe_eval float_round (rounding self) post r
                  (<[r := <[sequence l := rounded]> (h1 !!! r)]> h1) with
          | (Return _, h') => (Return r, h')
          | (Raise e, h') => (Raise e, h')
          end
      | inr e => (Raise e, <[r := <[sequence l := v]> (h1 !!! r)]> h1)
      end
  | inr e => (Raise (except_clauses l e), h1)
  end.
Proof.
  intros Hrec Hsplit Hpre.
  rewrite compute_lines_run, Hrec, Hsplit, compute_computed_lines_app, Hpre.
  rewrite compute_computed_lines_cons, compute_line_run.
  destruct (safe_eval _ _) as [v|e]; [|done].
  by destruct (float_round v (rounding self)).
Qed.

(** C3. When [compute_lines] succeeds, the keys of the mapping it returns
    are exactly the sequences of the lines of the template, input and
    computed. *)
Theorem compute_lines_key_set self r h r' h' :
  compute_lines safe_eval float_round self r h = (Return r', h') →
  dom (h' !!! r') = list_to_set (sequence <$> line_ids self).
Proof.
  rewrite compute_lines_run.
  destruct (reconcile_inputs self r h) as [[[]|e] h0] eqn:Hrec; [|done].
  pose proof (reconcile_inputs_store _ _ _ _ _ Hrec) as ->.
  apply reconcile_inputs_Return in Hrec.
  destruct (compute_computed_lines _ _ _ _ _ _) as [[[]|e] h1] eqn:Hloop; [|done].
  intros [= <- <-]. apply compute_computed_lines_dom in Hloop.
  by rewrite Hloop, Hrec, sequences_of_lines.
Qed.

(** C5. When [compute_lines] succeeds on a template with unique sequences,
    every input line has in the returned mapping the amount that was
    supplied for it: the rounding is applied to computed lines only. *)
Theorem compute_lines_inputs_preserved self r h r' h' l :
  sequence_template_uniq self →
  compute_lines safe_eval float_round self r h = (Return r', h') →
  l ∈ line_ids self → type l = input →
  is_Some ((h !!! r) !! sequence l)
  ∧ (h' !!! r') !! sequence l = (h !!! r) !! sequence l.
Proof.
  intros Hu Hrun Hl Ht. rewrite compute_lines_run in Hrun.
  destruct (reconcile_inputs self r h) as [[[]|e] h0] eqn:Hrec; [|done].
  pose proof (reconcile_inputs_store _ _ _ _ _ Hrec) as ->.
  apply reconcile_inputs_Return in Hrec.
  destruct (compute_computed_lines _ _ _ _ _ _) as [[[]|e] h1] eqn:Hloop; [|done].
  injection Hrun as <- <-.
  apply compute_computed_lines_frame in Hloop as (_ & Hkeys & _). split.
  - apply elem_of_dom. rewrite Hrec, elem_of_list_to_set.
    apply list_elem_of_fmap_2. by apply elem_of_input_lines.
  - apply Hkeys.
    intros (l' & Heq & [Hl' Ht']%elem_of_computed_lines)%list_elem_of_fmap.
    assert (l = l') as <-; [|congruence].
    apply (sequence_determines_line (line_ids self));
      [by apply NoDup_sequence_line_ids|done..].
Qed.

(** C4. The input lines and the keys supplied are reconciled before any
    formula is evaluated, the store being left as it is: on a template with
    unique sequences the run stops with [MissingInputLine] exactly when the
    sequence of some input line was not supplied, with [ExtraneousInputLine]
    exactly when all were supplied and some key supplied is not the sequence
    of an input line, and goes on to the computed lines exactly when the keys
    supplied are the sequences of the input lines. *)
Theorem compute_lines_reconciliation self r h :
  sequence_template_uniq self →
  let known := dom (h !!! r) in
  let missing := ∃ l, l ∈ line_ids self ∧ type l = input ∧ sequence l ∉ known in
  let extraneous :=
    ∃ k, k ∈ known ∧ ∀ l, l ∈ line_ids self → type l = input → sequence l ≠ k in
  let exact := known = list_to_set (sequence <$> input_lines self) in
  (reconcile_inputs self r h = (Raise MissingInputLine, h) ↔ missing)
  ∧ (reconcile_inputs self r h = (Raise ExtraneousInputLine, h)
     ↔ ¬ missing ∧ extraneous)
  ∧ (reconcile_inputs self r h = (Return tt, h) ↔ exact)
  ∧ (missing → compute_lines safe_eval float_round self r h = (Raise MissingInputLine, h))
  ∧ (¬ missing → extraneous →
     compute_lines safe_eval float_round self r h = (Raise ExtraneousInputLine, h))
  ∧ (exact →
     compute_lines safe_eval float_round self r h =
     match compute_computed_lines safe_eval float_round (rounding self) (computed_lines self) r h with
     | (Return _, h') => (Return r, h')
     | (Raise e, h') => (Raise e, h')
     end).
Proof.
  intros Hu known missing extraneous exact.
  set (inputs := list_to_set (sequence <$> input_lines self) : gset Z).
  assert (NoDup (sequence <$> input_lines self)) as Hnd
    by by apply NoDup_sequence_filter, NoDup_sequence_line_ids.
  pose proof (reconcile_inputs_NoDup self r h Hnd) as Hrun. cbv zeta in Hrun.
  fold known inputs in Hrun.
  assert (∀ l, l ∈ line_ids self → type l = input → sequence l ∈ inputs) as Hin.
  { intros l Hl Ht. apply elem_of_list_to_set, list_elem_of_fmap_2.
    by apply elem_of_input_lines. }
  assert (Forall (λ l, sequence l ∈ known) (input_lines self) → ¬ missing) as Hall.
  { rewrite Forall_forall. intros Hall (l & Hl & Ht & Hk).
    by apply Hk, Hall, elem_of_input_lines. }
  assert (¬ Forall (λ l, sequence l ∈ known) (input_lines self) → missing) as Hmiss.
  { intros Hf. apply not_Forall_Exists in Hf; [|intros l; apply _].
    apply Exists_exists in Hf as (l & [Hl Ht]%elem_of_input_lines & Hk).
    by exists l. }
  assert (known ⊆ inputs → ¬ extraneous) as Hsub.
  { intros Hsub (k & Hk & Hno). apply Hsub in Hk.
    apply elem_of_list_to_set, list_elem_of_fmap in Hk.
    destruct Hk as (l & Hkl & [Hl Ht]%elem_of_input_lines).
    by apply (Hno l). }
  assert (¬ known ⊆ inputs → extraneous) as Hext.
  { intros Hns. destruct (decide (known ∖ inputs = ∅)) as [He|He].
    - destruct Hns. by apply gset_subseteq_of_difference.
    - apply set_choose_L in He as [k [Hk Hn]%elem_of_difference].
      exists k. split; [done|]. intros l Hl Ht <-. by apply Hn, Hin. }
  assert (exact → known ⊆ inputs ∧ ¬ missing) as Hexact.
  { unfold exact. fold inputs. intros Heq. split; [by rewrite Heq|].
    intros (l & Hl & Ht & Hk). apply Hk. rewrite Heq. by apply Hin. }
  assert (known ⊆ inputs → ¬ missing → exact) as Hexact'.
  { intros Hs Hm. unfold exact. fold inputs. apply set_eq. intros k.
    split; [by apply Hs|].
    intros (l & -> & [Hl Ht]%elem_of_input_lines)%elem_of_list_to_set%list_elem_of_fmap.
    destruct (decide (sequence l ∈ known)) as [|Hn]; [done|].
    destruct Hm. by exists l. }
  rewrite compute_lines_run.
  destruct (decide (Forall _ (input_lines self))) as [Hf|Hf];
    [destruct (decide (known ⊆ inputs)) as [Hs|Hs]|]; rewrite !Hrun.
  - specialize (Hall Hf). specialize (Hsub Hs). specialize (Hexact' Hs Hall).
    split_and!; [split; [done|tauto]|split; [done|tauto]|done|tauto|tauto|done].
  - specialize (Hall Hf). specialize (Hext Hs).
    assert (¬ exact) by tauto.
    split_and!; [split; [done|tauto]|done|split; [done|tauto]|tauto|done|tauto].
  - specialize (Hmiss Hf). assert (¬ exact) by tauto.
    split_and!; [done|split; [done|tauto]|split; [done|tauto]|done|tauto|tauto].
Qed.

(** A failing loop stopped at one line, with the lines before it done:
    either the evaluation of its formula raised, and the dictionary is as
    the lines before left it, or the rounding of its value raised, and the
    dictionary holds that value, not rounded, under the sequence of the
    line. *)
Lemma compute_computed_lines_Raise prec ls r h e h' :
  compute_computed_lines safe_eval float_round prec ls r h = (Raise e, h') →
  ∃ pre l post h1,
    ls = pre ++ l :: post
    ∧ compute_computed_lines safe_eval float_round prec pre r h = (Return tt, h1)
    ∧ ((∃ e0,
          safe_eval (python_code l)
            (build_safe_eval_dict (map_to_list (h1 !!! r))) = inr e0
          ∧ e = except_clauses l e0 ∧ h' = h1)
       ∨ (∃ v,
            safe_eval (python_code l)
              (build_safe_eval_dict (map_to_list (h1 !!! r))) = inl v
            ∧ float_round v prec = inr e
            ∧ h' = <[r := <[sequence l := v]> (h1 !!! r)]> h1)).
Proof.
  revert h. induction ls as [|l ls IH]; intros h; [done|].
  rewrite compute_computed_lines_cons, compute_line_run.
  destruct (safe_eval _ _) as [v|e0] eqn:Hev;
    [destruct (float_round v prec) as [rounded|e1] eqn:Hround|].
  - intros (pre & l' & post & h1 & -> & Hpre & Hcase)%IH.
    exists (l :: pre), l', post, h1. split_and!; [done| |done].
    by rewrite compute_computed_lines_cons, compute_line_run, Hev, Hround.
  - intros [= <- <-]. exists [], l, ls, h. split_and!; [done..|].
    right. by exists v.
  - intros [= <- <-]. exists [], l, ls, h. split_and!; [done..|].
    left. by exists e0.
Qed.



(** C7. When the evaluation of the formula of a computed line raises
    [ValueError], as for a name that is not bound in the context, the run
    fails with [FormulaReferenceError] carrying the sequence and the formula
    of that line; when it raises [SyntaxError], the run fails with
    [FormulaSyntaxError] carrying the same two. *)
Theorem compute_lines_formula_errors self r h pre l post h1 :
  reconcile_inputs self r h = (Return tt, h) →
  computed_lines self = pre ++ l :: post →
  compute_computed_lines safe_eval float_round (rounding self) pre r h
  = (Return tt, h1) →
  let ctx := build_safe_eval_dict (map_to_list (h1 !!! r)) in
  (safe_eval (python_code l) ctx = inr ValueError →
   compute_lines safe_eval float_round self r h
   = (Raise (FormulaReferenceError (sequence l) (python_code l)), h1))
  ∧ (safe_eval (python_code l) ctx = inr SyntaxError →
     compute_lines safe_eval float_round self r h
     = (Raise (FormulaSyntaxError (sequence l) (python_code l)), h1)).
Proof.
  intros Hrec Hsplit Hpre ctx.
  rewrite (compute_lines_at_line _ _ _ _ _ _ _ Hrec Hsplit Hpre). fold ctx.
  split; by intros ->.
Qed.

(** C2, as the code has it.  On a template with unique sequences, the
    context in which the formula of the computed line [l] is evaluated binds
    exactly the names of the input lines, whatever their sequence, and of
    the computed lines of a smaller sequence.  Every input line is bound to
    the amount supplied for it, so the formula can refer to an input line of
    a higher sequence; the name of [l] itself and the names of the computed
    lines of a higher sequence are not bound.  When the evaluator reports a
    [ValueError], the run fails with [FormulaReferenceError]. *)
Theorem compute_lines_context self r h pre l post h1 :
  sequence_template_uniq self →
  reconcile_inputs self r h = (Return tt, h) →
  computed_lines self = pre ++ l :: post →
  compute_computed_lines safe_eval float_round (rounding self) pre r h
  = (Return tt, h1) →
  let ctx := build_safe_eval_dict (map_to_list (h1 !!! r)) in
  (∀ s, is_Some (ctx !! s) ↔
        ∃ l', l' ∈ line_ids self ∧ s = L_name (sequence l')
              ∧ (type l' = input ∨ sequence l' < sequence l))
  ∧ (∀ l', l' ∈ line_ids self → type l' = input →
       is_Some (ctx !! L_name (sequence l'))
       ∧ ctx !! L_name (sequence l') = (h !!! r) !! sequence l')
  ∧ ctx !! L_name (sequence l) = None
  ∧ (∀ l', l' ∈ line_ids self → type l' = computed →
       sequence l ≤ sequence l' → ctx !! L_name (sequence l') = None)
  ∧ (safe_eval (python_code l) ctx = inr ValueError →
     compute_lines safe_eval float_round self r h
     = (Raise (FormulaReferenceError (sequence l) (python_code l)), h1)).
Proof.
  intros Hu Hrec Hsplit Hpre ctx.
  pose proof (NoDup_sequence_line_ids _ Hu) as Hnd.
  destruct (computed_lines_split_strict _ _ _ _ Hu Hsplit) as [Hbefore Hafter].
  pose proof (reconcile_inputs_Return _ _ _ _ Hrec) as Hknown.
  pose proof (compute_computed_lines_dom _ _ _ _ _ _ _ Hpre) as Hdom.
  apply compute_computed_lines_frame in Hpre as Hframe.
  destruct Hframe as (_ & Hkeys & _).
  assert (l ∈ computed_lines self) as Hl by (rewrite Hsplit; set_solver).
  apply elem_of_computed_lines in Hl as [Hl Ht].
  assert (∀ k, k ∈ dom (h1 !!! r) ↔
            ∃ l', l' ∈ line_ids self ∧ k = sequence l'
                  ∧ (type l' = input ∨ sequence l' < sequence l)) as Hbound.
  { intros k. rewrite Hdom, Hknown, elem_of_union, !elem_of_list_to_set.
    rewrite !list_elem_of_fmap. split.
    - intros [(l' & -> & [Hl' Ht']%elem_of_input_lines)|(l' & -> & Hl')].
      + exists l'. auto.
      + exists l'. split_and!; [|done|right; by apply Hbefore].
        assert (l' ∈ computed_lines self) as Hc by (rewrite Hsplit; set_solver).
        by apply elem_of_computed_lines in Hc as [? _].
    - intros (l' & Hl' & -> & Hcase).
      destruct (type l') eqn:Ht'.
      + right. exists l'. split; [done|].
        assert (l' ∈ computed_lines self) as Hc by by apply elem_of_computed_lines.
        rewrite Hsplit in Hc.
        apply elem_of_app in Hc as [Hc|[->|Hc]%elem_of_cons]; [done|..].
        * destruct Hcase; [done|lia].
        * apply Hafter in Hc. destruct Hcase; [done|lia].
      + left. exists l'. split; [done|]. by apply elem_of_input_lines. }
  assert (∀ l', l' ∈ line_ids self → type l' = computed →
            sequence l ≤ sequence l' → sequence l' ∉ dom (h1 !!! r)) as Hfree.
  { intros l' Hl' Ht' Hle (l'' & Hl'' & Heq & Hcase)%Hbound.
    assert (l' = l'') as <- by by apply (sequence_determines_line (line_ids self)).
    destruct Hcase; [congruence|lia]. }
  unfold ctx. split_and!.
  - intros s. rewrite safe_eval_dict_bound. setoid_rewrite Hbound. split.
    + intros (k & -> & l' & Hl' & -> & Hcase). by exists l'.
    + intros (l' & Hl' & -> & Hcase). exists (sequence l'). split; [done|].
      by exists l'.
  - intros l' Hl' Ht'. rewrite lookup_safe_eval_dict.
    assert ((h1 !!! r) !! sequence l' = (h !!! r) !! sequence l') as ->.
    { apply Hkeys. intros (l'' & Heq & Hl'')%list_elem_of_fmap.
      assert (l'' ∈ computed_lines self) as Hc by (rewrite Hsplit; set_solver).
      apply elem_of_computed_lines in Hc as [Hc Ht''].
      assert (l' = l'') as <- by by apply (sequence_determines_line (line_ids self)).
      congruence. }
    split; [|done]. apply elem_of_dom. rewrite Hknown, elem_of_list_to_set.
    by apply list_elem_of_fmap_2, elem_of_input_lines.
  - rewrite lookup_safe_eval_dict. apply not_elem_of_dom. by apply Hfree.
  - intros l' Hl' Ht' Hle. rewrite lookup_safe_eval_dict.
    apply not_elem_of_dom. by apply Hfree.
  - rewrite (compute_lines_at_line _ _ _ _ _ _ _ Hrec Hsplit Hpre).
    by intros ->.
Qed.

(** C1, as the code has it.  [compute_lines] works in place on the mapping
    it is given and on no other object.  When it succeeds, the mapping it
    returns is that very object.  When the reconciliation fails, the mapping
    is as it was.  When it fails at a computed line, nothing is returned and
    the mapping is what the computed lines before that line have made of
    it (it has gained their sequences, and holds what it held under every
    other key), with one more key if it is the rounding that failed: the
    sequence of that line, holding the value of its formula not rounded. *)
Theorem compute_lines_in_place self r h x h' :
  compute_lines safe_eval float_round self r h = (x, h') →
  (∀ r', r' ≠ r → h' !! r' = h !! r')
  ∧ (∀ r', x = Return r' → r' = r)
  ∧ (∀ e, reconcile_inputs self r h = (Raise e, h) → x = Raise e ∧ h' = h)
  ∧ (∀ e, x = Raise e → reconcile_inputs self r h = (Return tt, h) →
       ∃ pre l post h1,
         computed_lines self = pre ++ l :: post
         ∧ compute_computed_lines safe_eval float_round (rounding self) pre r h
           = (Return tt, h1)
         ∧ dom (h1 !!! r) = dom (h !!! r) ∪ list_to_set (sequence <$> pre)
         ∧ (∀ k, k ∉ sequence <$> pre → (h1 !!! r) !! k = (h !!! r) !! k)
         ∧ ((∃ e0,
               safe_eval (python_code l)
                 (build_safe_eval_dict (map_to_list (h1 !!! r))) = inr e0
               ∧ e = except_clauses l e0 ∧ h' = h1)
            ∨ (∃ v,
                 safe_eval (python_code l)
                   (build_safe_eval_dict (map_to_list (h1 !!! r))) = inl v
                 ∧ float_round v (rounding self) = inr e
                 ∧ h' = <[r := <[sequence l := v]> (h1 !!! r)]> h1))).
Proof.
  rewrite compute_lines_run.
  destruct (reconcile_inputs self r h) as [[[]|e] h0] eqn:Hrec;
    pose proof (reconcile_inputs_store _ _ _ _ _ Hrec) as ->.
  - destruct (compute_computed_lines _ _ _ _ _ _) as [[[]|e] h1] eqn:Hloop;
      intros [= <- <-];
      pose proof (compute_computed_lines_frame _ _ _ _ _ _ _ _ Hloop)
        as (Hother & _).
    + split_and!; [done|congruence|done|done].
    + split_and!; [done|done|done|]. intros e' [= <-] _.
      apply compute_computed_lines_Raise in Hloop
        as (pre & l & post & h2 & Hsplit & Hpre & Hcase).
      exists pre, l, post, h2. split_and!; [done..| | |done].
      * by apply compute_computed_lines_dom in Hpre.
      * by apply compute_computed_lines_frame in Hpre as (_ & Hkeys & _).
  - intros [= <- <-]. split_and!; [done|done| |done].
    intros e' [= <-]. done.
Qed.

End compute_lines_facts.

(** ** The constraint on saved lines *)

(** C10. Saving is rejected with [MissingFormula] exactly when a line being
    saved is computed and has no formula, [False] or empty; the check reads
    the lines alone, and a line of type input passes whatever its formula. *)
Theorem check_python_code_MissingFormula (self : list line) (l : line) :
  (check_python_code [l] = Raise (MissingFormula (sequence l))
   ↔ type l = computed ∧ (python_code l = None ∨ python_code l = Some EmptyString))
  ∧ (check_python_code [l] = Return tt
     ↔ ¬ (type l = computed ∧ (python_code l = None ∨ python_code l = Some EmptyString)))
  ∧ (type l = input → check_python_code [l] = Return tt)
  ∧ ((∃ seq, check_python_code self = Raise (MissingFormula seq))
     ↔ ∃ l', l' ∈ self ∧ type l' = computed
             ∧ (python_code l' = None ∨ python_code l' = Some EmptyString))
  ∧ (check_python_code self = Return tt
     ∨ ∃ seq, check_python_code self = Raise (MissingFormula seq)).
Proof.
  assert (∀ l0, no_python_code l0 = true
                ↔ python_code l0 = None ∨ python_code l0 = Some EmptyString) as Hno.
  { intros l0. unfold no_python_code. destruct (python_code l0) as [s|].
    - rewrite bool_decide_eq_true. naive_solver.
    - naive_solver. }
  assert (∀ l0, bool_decide (type l0 = computed) && no_python_code l0 = true
                ↔ type l0 = computed
                  ∧ (python_code l0 = None ∨ python_code l0 = Some EmptyString)) as Hbad.
  { intros l0. by rewrite andb_true_iff, bool_decide_eq_true, Hno. }
  split_and!.
  - simpl. rewrite <- Hbad. destruct (_ && _); naive_solver.
  - simpl. rewrite <- Hbad. destruct (_ && _); naive_solver.
  - intros Ht. simpl. rewrite Ht. done.
  - induction self as [|l0 self IH]; simpl.
    + split; [by intros [? ?]|]. by intros (? & ?%elem_of_nil & _).
    + destruct (_ && _) eqn:Hl0.
      * split; [|by eauto]. intros _. exists l0. split; [by left|].
        by apply Hbad.
      * rewrite IH. split.
        -- intros (l' & Hl' & Hc). exists l'. split; [by right|done].
        -- intros (l' & [->|Hl']%elem_of_cons & Hc); [|by eauto].
           apply Hbad in Hc. congruence.
  - induction self as [|l0 self IH]; simpl; [by left|].
    destruct (_ && _); [right; by eauto|done].
Qed.

(** ** Runs of the engine on concrete templates *)

Lemma compute_lines_key_set_witness :
  run_compute_lines template_sum caller_dict (store_with known_sum)
  = (Return caller_dict, store_with (<[3 := (15001 # 100)%Q]> known_sum))
  ∧ dom (store_with (<[3 := (15001 # 100)%Q]> known_sum) !!! caller_dict)
    = list_to_set (sequence <$> line_ids template_sum).
Proof.
  assert (run_compute_lines template_sum caller_dict (store_with known_sum)
          = (Return caller_dict,
             store_with (<[3 := (15001 # 100)%Q]> known_sum))) as Hrun
    by by_evaluation.
  split; [exact Hrun|].
  exact (compute_lines_key_set safe_eval_model float_round_model
           template_sum caller_dict _ caller_dict _ Hrun).
Defined.

Lemma compute_lines_inputs_preserved_witness :
  sequence_template_uniq template_sum
  ∧ run_compute_lines template_sum caller_dict (store_with known_sum)
    = (Return caller_dict, store_with (<[3 := (15001 # 100)%Q]> known_sum))
  ∧ mk_line 2 2 input None ∈ line_ids template_sum
  ∧ is_Some ((store_with known_sum !!! caller_dict) !! 2)
  ∧ (store_with (<[3 := (15001 # 100)%Q]> known_sum) !!! caller_dict) !! 2
    = (store_with known_sum !!! caller_dict) !! 2.
Proof.
  assert (sequence_template_uniq template_sum) as Hu by uniq_by_evaluation.
  assert (run_compute_lines template_sum caller_dict (store_with known_sum)
          = (Return caller_dict,
             store_with (<[3 := (15001 # 100)%Q]> known_sum))) as Hrun
    by by_evaluation.
  assert (mk_line 2 2 input None ∈ line_ids template_sum) as Hl
    by decided_by_evaluation.
  split_and!; [exact Hu|exact Hrun|exact Hl|..];
    apply (compute_lines_inputs_preserved safe_eval_model float_round_model
             template_sum caller_dict _ caller_dict _ (mk_line 2 2 input None)
             Hu Hrun Hl eq_refl).
Defined.

(** Scenario 2 of the specification: the amount of line 2 is not supplied. *)
Lemma compute_lines_reconciliation_witness :
  sequence_template_uniq template_sum
  ∧ run_compute_lines template_sum caller_dict (store_with known_one)
    = (Raise MissingInputLine, store_with known_one).
Proof.
  assert (sequence_template_uniq template_sum) as Hu by uniq_by_evaluation.
  split; [exact Hu|].
  destruct (compute_lines_reconciliation safe_eval_model float_round_model
              template_sum caller_dict (store_with known_one) Hu)
    as (_ & _ & _ & Hmissing & _).
  apply Hmissing. exists (mk_line 2 2 input None).
  split_and!; [|reflexivity|]; decided_by_evaluation.
Defined.


(** Scenarios 4 and 5 of the specification: a formula that refers to a
    sequence no line has, and a formula that does not parse. *)
Lemma compute_lines_formula_errors_witness :
  run_compute_lines template_chain caller_dict (store_with known_one)
  = (Raise (FormulaReferenceError 3 (Some "L9")),
     store_with (<[2 := (200 # 1)%Q]> known_one))
  ∧ run_compute_lines template_malformed caller_dict (store_with known_one)
    = (Raise (FormulaSyntaxError 2 (Some "L1+")), store_with known_one).
Proof.
  split.
  - apply (compute_lines_formula_errors safe_eval_model float_round_model
             template_chain caller_dict (store_with known_one)
             [mk_line 2 2 computed (Some "L1*2")]
             (mk_line 3 3 computed (Some "L9")) []
             (store_with (<[2 := (200 # 1)%Q]> known_one)));
      by_evaluation.
  - apply (compute_lines_formula_errors safe_eval_model float_round_model
             template_malformed caller_dict (store_with known_one)
             [] (mk_line 2 2 computed (Some "L1+")) []
             (store_with known_one));
      by_evaluation.
Defined.

(** The context of the computed line 1 of [template_forward] binds the name
    of the input line 2 to the amount supplied, and not its own name. *)
Lemma compute_lines_context_witness :
  sequence_template_uniq template_forward
  ∧ reconcile_inputs template_forward caller_dict (store_with known_ten)
    = (Return tt, store_with known_ten)
  ∧ computed_lines template_forward = [] ++ mk_line 1 1 computed (Some "L2") :: []
  ∧ build_safe_eval_dict (map_to_list (store_with known_ten !!! caller_dict))
    !! L_name 2 = (store_with known_ten !!! caller_dict) !! 2
  ∧ build_safe_eval_dict (map_to_list (store_with known_ten !!! caller_dict))
    !! L_name 1 = None.
Proof.
  assert (sequence_template_uniq template_forward) as Hu by uniq_by_evaluation.
  assert (reconcile_inputs template_forward caller_dict (store_with known_ten)
          = (Return tt, store_with known_ten)) as Hrec by by_evaluation.
  assert (computed_lines template_forward
          = [] ++ mk_line 1 1 computed (Some "L2") :: []) as Hsplit
    by by_evaluation.
  destruct (compute_lines_context safe_eval_model float_round_model
              template_forward caller_dict (store_with known_ten)
              [] (mk_line 1 1 computed (Some "L2")) [] (store_with known_ten)
              Hu Hrec Hsplit eq_refl)
    as (_ & Hinputs & Hself & _).
  split_and!; [exact Hu|exact Hrec|exact Hsplit| |exact Hself].
  apply (Hinputs (mk_line 2 2 input None)); [|reflexivity].
  decided_by_evaluation.
Defined.

(** The failing run of [template_chain] stopped at line 3, with line 2 done. *)
Lemma compute_lines_in_place_witness :
  run_compute_lines template_chain caller_dict (store_with known_one)
  = (Raise (FormulaReferenceError 3 (Some "L9")),
     store_with (<[2 := (200 # 1)%Q]> known_one))
  ∧ ∃ pre l post h1,
      computed_lines template_chain = pre ++ l :: post
      ∧ compute_computed_lines safe_eval_model float_round_model
          (rounding template_chain) pre caller_dict (store_with known_one)
        = (Return tt, h1)
      ∧ dom (h1 !!! caller_dict)
        = dom (store_with known_one !!! caller_dict)
          ∪ list_to_set (sequence <$> pre)
      ∧ (∀ k, k ∉ sequence <$> pre →
              (h1 !!! caller_dict) !! k
              = (store_with known_one !!! caller_dict) !! k)
      ∧ ((∃ e0,
            safe_eval_model (python_code l)
              (build_safe_eval_dict (map_to_list (h1 !!! caller_dict)))
            = inr e0
            ∧ FormulaReferenceError 3 (Some "L9") = except_clauses l e0
            ∧ store_with (<[2 := (200 # 1)%Q]> known_one) = h1)
         ∨ (∃ v,
              safe_eval_model (python_code l)
                (build_safe_eval_dict (map_to_list (h1 !!! caller_dict)))
              = inl v
              ∧ float_round_model v (rounding template_chain)
                = inr (FormulaReferenceError 3 (Some "L9"))
              ∧ store_with (<[2 := (200 # 1)%Q]> known_one)
                = <[caller_dict := <[sequence l := v]> (h1 !!! caller_dict)]> h1)).
Proof.
  assert (run_compute_lines template_chain caller_dict (store_with known_one)
          = (Raise (FormulaReferenceError 3 (Some "L9")),
             store_with (<[2 := (200 # 1)%Q]> known_one))) as Hrun
    by by_evaluation.
  split; [exact Hrun|].
  destruct (compute_lines_in_place safe_eval_model float_round_model
              template_chain caller_dict (store_with known_one) _ _ Hrun)
    as (_ & _ & _ & Hfailed).
  apply Hfailed; [reflexivity|by_evaluation].
Defined.

(** ** Where the code departs from the specification *)

(** Against C1: the run of [template_chain] fails at line 3 after it has
    stored the amount of line 2 in the dictionary of the caller, and a run
    that succeeds returns the reference it was given. *)
Lemma compute_lines_mutates_caller_dict :
  run_compute_lines template_chain caller_dict (store_with known_one)
  = (Raise (FormulaReferenceError 3 (Some "L9")),
     store_with (<[2 := (200 # 1)%Q]> known_one))
  ∧ (store_with (<[2 := (200 # 1)%Q]> known_one) !!! caller_dict) !! 2
    = Some (200 # 1)%Q
  ∧ (store_with known_one !!! caller_dict) !! 2 = None
  ∧ run_compute_lines template_sum caller_dict (store_with known_sum)
    = (Return caller_dict, store_with (<[3 := (15001 # 100)%Q]> known_sum)).
Proof. split_and!; by_evaluation. Qed.

(** Against C2: line 1 of [template_forward] is computed from ["L2"], the
    name of the input line of sequence 2; that name is bound in its context
    and the run succeeds. *)
Lemma compute_lines_forward_reference :
  computed_lines template_forward = [mk_line 1 1 computed (Some "L2")]
  ∧ mk_line 2 2 input None ∈ line_ids template_forward
  ∧ build_safe_eval_dict (map_to_list (store_with known_ten !!! caller_dict))
    !! "L2" = Some (10 # 1)%Q
  ∧ run_compute_lines template_forward caller_dict (store_with known_ten)
    = (Return caller_dict, store_with (<[1 := (10 # 1)%Q]> known_ten)).
Proof.
  split_and!; [by_evaluation| |by_evaluation|by_evaluation].
  decided_by_evaluation.
Qed.

(** ** Further properties of the reconciliation *)

Section reconciliation_facts.
Context {amount : Type}.
Implicit Types (h : gmap loc (gmap Z amount)) (d : gmap Z amount).
Implicit Types (r : loc) (l : line) (ls : list line).

(** The loop completes only on lines of pairwise distinct sequences: a
    second line of the same sequence finds its key already popped. *)
Lemma reconcile_loop_Return_NoDup r ls d h d' h' :
  for_in ls (pop_input_line r) d h = (Return d', h') →
  NoDup (sequence <$> ls).
Proof.
  revert d. induction ls as [|l ls IH]; intros d; cbn [for_in].
  - intros _. constructor.
  - unfold bind. rewrite pop_input_line_run.
    case_decide; [|done]. destruct (d !! sequence l) eqn:Hd; [|done].
    intros Hloop. rewrite fmap_cons. apply NoDup_cons. split; [|by eapply IH].
    apply reconcile_loop_Return in Hloop as (_ & Hsub & _).
    intros Hin. assert (sequence l ∈ dom (delete (sequence l) d)) as Hdel.
    { apply Hsub. by apply elem_of_list_to_set. }
    rewrite dom_delete_L in Hdel. set_solver.
Qed.

(** The three ways the loop can end. *)
Lemma reconcile_loop_outcomes r ls d h x h' :
  for_in ls (pop_input_line r) d h = (x, h') →
  (∃ d', x = Return d')
  ∨ (x = Raise MissingInputLine
     ∧ ¬ Forall (λ l, sequence l ∈ dom (h !!! r)) ls)
  ∨ (∃ l, l ∈ ls ∧ x = Raise (KeyError (sequence l))).
Proof.
  revert d. induction ls as [|l ls IH]; intros d; cbn [for_in].
  - intros [= <- _]. left. by eexists.
  - unfold bind. rewrite pop_input_line_run.
    destruct (decide (sequence l ∈ dom (h !!! r))) as [Hin|Hin].
    + destruct (d !! sequence l) eqn:Hd.
      * intros [Hret|[[-> Hmiss]|(l' & Hl' & ->)]]%IH.
        -- by left.
        -- right; left. split; [done|]. by intros [_ ?]%Forall_cons.
        -- right; right. exists l'. split; [by right|done].
      * intros [= <- _]. right; right. exists l. split; [by left|done].
    + intros [= <- _]. right; left. split; [done|]. by intros [? _]%Forall_cons.
Qed.

End reconciliation_facts.

(** ** Further properties of [compute_lines] *)

Section more_compute_lines_facts.
Context {amount : Type}.
Variable safe_eval : option string → gmap string amount → amount + exn.
Variable float_round : amount → amount → amount + exn.

Implicit Types (self : template amount) (h : gmap loc (gmap Z amount)).
Implicit Types (r : loc) (l : line) (ls : list line).

(** What a successful run went through. *)
Lemma compute_lines_Return_inv self r h r' h' :
  compute_lines safe_eval float_round self r h = (Return r', h') →
  r' = r
  ∧ reconcile_inputs self r h = (Return tt, h)
  ∧ compute_computed_lines safe_eval float_round (rounding self)
      (computed_lines self) r h = (Return tt, h').
Proof.
  rewrite compute_lines_run.
  destruct (reconcile_inputs self r h) as [[[]|e] h0] eqn:Hrec; [|done].
  pose proof (reconcile_inputs_store _ _ _ _ _ Hrec) as ->.
  destruct (compute_computed_lines _ _ _ _ _ _) as [[[]|e] h1] eqn:Hloop; [|done].
  by intros [= <- <-].
Qed.

(** With unique sequences, no sequence belongs to an input line and to a
    computed line. *)
Lemma input_not_computed_sequence self k :
  sequence_template_uniq self →
  k ∈ sequence <$> input_lines self → k ∉ sequence <$> computed_lines self.
Proof.
  intros Hu (l1 & -> & [Hl1 Ht1]%elem_of_input_lines)%list_elem_of_fmap
    (l2 & Heq & [Hl2 Ht2]%elem_of_computed_lines)%list_elem_of_fmap.
  assert (l1 = l2) as <-; [|congruence].
  apply (sequence_determines_line (line_ids self));
    [by apply NoDup_sequence_line_ids|done..].
Qed.

(** After the loop, each line it went through holds a rounded amount. *)
Lemma compute_computed_lines_rounded prec ls r h h' l :
  compute_computed_lines safe_eval float_round prec ls r h = (Return tt, h') →
  l ∈ ls →
  ∃ v rounded,
    float_round v prec = inl rounded
    ∧ (h' !!! r) !! sequence l = Some rounded.
Proof.
  revert h l. induction ls as [|l0 ls IH]; intros h l Hloop Hl.
  { by apply elem_of_nil in Hl. }
  rewrite compute_computed_lines_cons, compute_line_run in Hloop.
  destruct (safe_eval _ _) as [v|e]; [|done].
  destruct (float_round v prec) as [rounded|e] eqn:Hround; [|done].
  destruct (decide (sequence l ∈ sequence <$> ls)) as [Hin|Hout].
  - apply list_elem_of_fmap in Hin as (l' & Heq & Hl'). rewrite Heq.
    by eapply IH.
  - apply elem_of_cons in Hl as [->|Hl];
      [|destruct Hout; by apply list_elem_of_fmap_2].
    apply compute_computed_lines_frame in Hloop as (_ & Hkeys & _).
    exists v, rounded. split; [done|]. rewrite Hkeys by done.
    by rewrite lookup_total_insert_eq, lookup_insert_eq.
Qed.

(** X1. Whatever the outcome, [compute_lines] removes no key from the
    dictionary it is given, and the keys it adds are sequences of computed
    lines. *)
Theorem compute_lines_keys_grow self r h x h' :
  compute_lines safe_eval float_round self r h = (x, h') →
  dom (h !!! r) ⊆ dom (h' !!! r)
  ∧ dom (h' !!! r)
    ⊆ dom (h !!! r) ∪ list_to_set (sequence <$> computed_lines self).
Proof.
  rewrite compute_lines_run.
  destruct (reconcile_inputs self r h) as [[[]|e] h0] eqn:Hrec;
    pose proof (reconcile_inputs_store _ _ _ _ _ Hrec) as ->.
  - destruct (compute_computed_lines _ _ _ _ _ _) as [[[]|e] h1] eqn:Hloop;
      intros [= _ <-];
      by apply compute_computed_lines_frame in Hloop as (_ & _ & ? & ?).
  - intros [= _ <-]. split; set_solver.
Qed.

(** X2. On a template with unique sequences, every key the caller supplied
    still holds the amount supplied when [compute_lines] is over, whether it
    succeeded or failed. *)
Theorem compute_lines_supplied_amounts_kept self r h x h' k :
  sequence_template_uniq self →
  compute_lines safe_eval float_round self r h = (x, h') →
  k ∈ dom (h !!! r) →
  (h' !!! r) !! k = (h !!! r) !! k.
Proof.
  intros Hu Hrun Hk. rewrite compute_lines_run in Hrun.
  destruct (reconcile_inputs self r h) as [[[]|e] h0] eqn:Hrec;
    pose proof (reconcile_inputs_store _ _ _ _ _ Hrec) as ->.
  - apply reconcile_inputs_Return in Hrec. rewrite Hrec in Hk.
    apply elem_of_list_to_set in Hk.
    assert (∃ x1 h1, compute_computed_lines safe_eval float_round
              (rounding self) (computed_lines self) r h = (x1, h1) ∧ h1 = h')
      as (x1 & h1 & Hloop & ->).
    { destruct (compute_computed_lines _ _ _ _ _ _) as [[[]|e] h1];
        injection Hrun as _ <-; eauto. }
    apply compute_computed_lines_frame in Hloop as (_ & Hkeys & _).
    by apply Hkeys, input_not_computed_sequence.
  - by injection Hrun as _ <-.
Qed.

(** X3. [compute_lines] succeeds only if the input lines have pairwise
    distinct sequences. *)
Theorem compute_lines_Return_distinct_inputs self r h r' h' :
  compute_lines safe_eval float_round self r h = (Return r', h') →
  NoDup (sequence <$> input_lines self).
Proof.
  intros (_ & Hrec & _)%compute_lines_Return_inv.
  unfold reconcile_inputs, bind, dict_copy in Hrec.
  destruct (for_in _ _ _ h) as [[d|e] h1] eqn:Hloop; [|done].
  by eapply reconcile_loop_Return_NoDup.
Qed.

(** X4. When two input lines share a sequence and every input sequence was
    supplied, [compute_lines] stops in the reconciliation with the
    [KeyError] of [pop], not with a [UserError], and the dictionary is as it
    was. *)
Theorem compute_lines_duplicate_input_KeyError self r h :
  Forall (λ l, sequence l ∈ dom (h !!! r)) (input_lines self) →
  ¬ NoDup (sequence <$> input_lines self) →
  ∃ l, l ∈ line_ids self ∧ type l = input
       ∧ compute_lines safe_eval float_round self r h
         = (Raise (KeyError (sequence l)), h).
Proof.
  intros Hall Hdup. rewrite compute_lines_run.
  unfold reconcile_inputs, bind, dict_copy.
  destruct (for_in _ _ _ h) as [x h1] eqn:Hloop.
  pose proof (reconcile_loop_store _ _ _ _ _ _ Hloop) as ->.
  destruct (reconcile_loop_outcomes _ _ _ _ _ _ Hloop)
    as [[d' ->]|[[-> Hmiss]|(l & [Hl Ht]%elem_of_input_lines & ->)]].
  - destruct Hdup. by eapply reconcile_loop_Return_NoDup.
  - done.
  - by exists l.
Qed.

(** X5. The mapping a successful run returns cannot be given to
    [compute_lines] again: on a template with unique sequences and at least
    one computed line, the second run stops with [ExtraneousInputLine] and
    leaves the mapping as the first run made it. *)
Theorem compute_lines_twice self r h r' h' :
  sequence_template_uniq self →
  computed_lines self ≠ [] →
  compute_lines safe_eval float_round self r h = (Return r', h') →
  compute_lines safe_eval float_round self r' h'
  = (Raise ExtraneousInputLine, h').
Proof.
  intros Hu Hne (-> & Hrec & Hloop)%compute_lines_Return_inv.
  apply reconcile_inputs_Return in Hrec.
  apply compute_computed_lines_dom in Hloop.
  assert (NoDup (sequence <$> input_lines self)) as Hnd
    by by apply NoDup_sequence_filter, NoDup_sequence_line_ids.
  rewrite compute_lines_run, (reconcile_inputs_NoDup self r h' Hnd).
  cbv zeta. rewrite decide_True.
  - rewrite decide_False; [done|]. intros Hsub.
    destruct (computed_lines self) as [|l0 ls] eqn:Hc; [done|].
    assert (sequence l0 ∈ sequence <$> input_lines self) as Hin.
    { apply (elem_of_list_to_set (C:=gset Z)), Hsub.
      rewrite Hloop, fmap_cons. set_solver. }
    apply (input_not_computed_sequence _ _ Hu) in Hin. apply Hin.
    rewrite Hc, fmap_cons. by left.
  - apply Forall_forall. intros l Hl. rewrite Hloop, Hrec.
    apply elem_of_union_l, elem_of_list_to_set. by apply list_elem_of_fmap_2.
Qed.

(** X6. In the mapping a successful run returns, the amount of every
    computed line is a value of [float_round] at the rounding of the
    template: no computed amount is stored as the evaluator gave it. *)
Theorem compute_lines_computed_amounts_rounded self r h r' h' l :
  compute_lines safe_eval float_round self r h = (Return r', h') →
  l ∈ line_ids self → type l = computed →
  ∃ v rounded,
    float_round v (rounding self) = inl rounded
    ∧ (h' !!! r') !! sequence l = Some rounded.
Proof.
  intros (-> & _ & Hloop)%compute_lines_Return_inv Hl Ht.
  eapply compute_computed_lines_rounded; [done|].
  by apply elem_of_computed_lines.
Qed.

(** X7. On a template with unique sequences, the amount a successful run
    returns for a computed line is the rounded value of its formula in the
    context of the returned mapping without the line itself and the computed
    lines after it: what the lines after it stored changed nothing of what
    it was computed from. *)
Theorem compute_lines_computed_amount self r h r' h' pre l post :
  sequence_template_uniq self →
  compute_lines safe_eval float_round self r h = (Return r', h') →
  computed_lines self = pre ++ l :: post →
  ∃ v rounded,
    safe_eval (python_code l)
      (build_safe_eval_dict
         (map_to_list
            (filter (λ kv : Z * amount, kv.1 ∉ sequence <$> l :: post)
               (h' !!! r')))) = inl v
    ∧ float_round v (rounding self) = inl rounded
    ∧ (h' !!! r') !! sequence l = Some rounded.
Proof.
  intros Hu (-> & Hrec & Hloop)%compute_lines_Return_inv Hsplit.
  apply reconcile_inputs_Return in Hrec.
  assert (NoDup (sequence <$> pre ++ l :: post)) as Hnd.
  { rewrite <- Hsplit. by apply NoDup_sequence_filter, NoDup_sequence_line_ids. }
  rewrite fmap_app, fmap_cons in Hnd.
  apply NoDup_app in Hnd as (_ & Hdisj & [Hl _]%NoDup_cons).
  rewrite Hsplit, compute_computed_lines_app in Hloop.
  destruct (compute_computed_lines _ _ _ pre r h) as [[[]|e] h1] eqn:Hpre;
    [|done].
  rewrite compute_computed_lines_cons, compute_line_run in Hloop.
  destruct (safe_eval _ _) as [v|e] eqn:Hev; [|done].
  destruct (float_round v (rounding self)) as [rounded|e] eqn:Hround; [|done].
  apply compute_computed_lines_frame in Hloop as (_ & Hkeys & _).
  rewrite lookup_total_insert_eq in Hkeys.
  apply compute_computed_lines_dom in Hpre.
  exists v, rounded. split_and!; [|done|].
  - rewrite <- Hev. do 3 f_equal. apply map_eq. intros k.
    destruct (decide (k ∈ sequence <$> l :: post)) as [Hk|Hk].
    + rewrite map_lookup_filter_None_2; [|right; intros a _ Hn; by apply Hn].
      symmetry. apply not_elem_of_dom. rewrite Hpre, Hrec.
      intros [Hin%elem_of_list_to_set|Hin%elem_of_list_to_set]%elem_of_union.
      * apply (input_not_computed_sequence _ _ Hu) in Hin. apply Hin.
        rewrite Hsplit, fmap_app. apply elem_of_app. by right.
      * by apply (Hdisj k).
    + assert (sequence l ≠ k ∧ k ∉ sequence <$> post) as [Hne Hpost].
      { rewrite fmap_cons, not_elem_of_cons in Hk. naive_solver. }
      apply option_eq. intros a. rewrite map_lookup_filter_Some.
      rewrite (Hkeys k Hpost), lookup_insert_ne by done.
      split; [by intros [? _]|by split].
  - rewrite (Hkeys (sequence l) Hl). by rewrite lookup_insert_eq.
Qed.

(** X12. No exception of [float_round] is caught, whatever its class: when
    the rounding of the value of a computed line raises, [compute_lines]
    stops with that exception and the dictionary holds the value, not
    rounded, under the sequence of the line.  An exception of the evaluator
    other than [ValueError] and [SyntaxError] is not caught either, and
    leaves the dictionary as the lines before have made it. *)
Theorem compute_lines_exceptions_pass_through self r h pre l post h1 :
  reconcile_inputs self r h = (Return tt, h) →
  computed_lines self = pre ++ l :: post →
  compute_computed_lines safe_eval float_round (rounding self) pre r h
  = (Return tt, h1) →
  let ctx := build_safe_eval_dict (map_to_list (h1 !!! r)) in
  (∀ v e, safe_eval (python_code l) ctx = inl v →
          float_round v (rounding self) = inr e →
          compute_lines safe_eval float_round self r h
          = (Raise e, <[r := <[sequence l := v]> (h1 !!! r)]> h1))
  ∧ (∀ e, safe_eval (python_code l) ctx = inr e →
          e ≠ ValueError → e ≠ SyntaxError →
          compute_lines safe_eval float_round self r h = (Raise e, h1)).
Proof.
  intros Hrec Hsplit Hpre ctx.
  rewrite (compute_lines_at_line _ _ _ _ _ _ _ _ _ Hrec Hsplit Hpre). fold ctx.
  split.
  - by intros v e -> ->.
  - intros e -> Hv Hs. by destruct e.
Qed.

End more_compute_lines_facts.

(** ** Further properties of the context and of the constraint *)

(** X9. The context mirrors the dictionary, in whatever order the items
    come: the name of a sequence is bound to the amount the dictionary holds
    for that sequence, no other name is bound, and no two sequences share a
    name, the context having as many bindings as the dictionary has keys. *)
Theorem safe_eval_dict_round_trip {amount : Type} (m : gmap Z amount)
    (items : list (Z * amount)) :
  items ≡ₚ map_to_list m →
  (∀ seq, build_safe_eval_dict items !! L_name seq = m !! seq)
  ∧ (∀ s, is_Some (build_safe_eval_dict items !! s)
          → ∃ seq, s = L_name seq ∧ is_Some (m !! seq))
  ∧ size (build_safe_eval_dict items) = size m.
Proof.
  intros Hperm.
  assert (build_safe_eval_dict items = kmap L_name m) as ->.
  { unfold build_safe_eval_dict, kmap.
    rewrite <- (reverse_involutive items) at 1.
    rewrite foldl_reverse_foldr_insert. apply list_to_map_proper.
    - rewrite fst_prod_map_names. apply (NoDup_fmap_2 L_name).
      rewrite reverse_Permutation, Hperm. apply NoDup_fst_map_to_list.
    - by rewrite reverse_Permutation, Hperm. }
  split_and!.
  - intros seq. apply (lookup_kmap L_name).
  - intros s. by rewrite (lookup_kmap_is_Some L_name).
  - rewrite <- !length_map_to_list, (map_to_list_kmap L_name).
    by rewrite length_fmap.
Qed.

Lemma check_python_code_test (l : line) :
  bool_decide (type l = computed) && no_python_code l = false
  ↔ has_formula_if_computed l.
Proof.
  unfold has_formula_if_computed.
  rewrite andb_false_iff, bool_decide_eq_false. destruct (type l); naive_solver.
Qed.

(** X10. [check_python_code] reports the first computed line without
    formula, in the order of the recordset: the error carries the sequence
    of a line all of whose predecessors are in order. *)
Theorem check_python_code_first_offender (self : list line) (seq : Z) :
  check_python_code self = Raise (ValidationError seq)
  ↔ ∃ pre l post,
      self = pre ++ l :: post
      ∧ Forall has_formula_if_computed pre
      ∧ type l = computed ∧ no_python_code l = true
      ∧ seq = sequence l.
Proof.
  induction self as [|l0 self IH]; simpl.
  - split; [done|]. by intros ([|??] & ? & ? & ? & _).
  - destruct (_ && _) eqn:Htest.
    + apply andb_true_iff in Htest as [Ht%bool_decide_eq_true Hno]. split.
      * intros [= <-]. by exists [], l0, self.
      * intros ([|l1 pre] & l & post & Heq & Hpre & Hc & Hn & ->).
        -- by injection Heq as <- _.
        -- injection Heq as <- _. apply Forall_cons in Hpre as [Hok _].
           apply check_python_code_test in Hok.
           rewrite Ht, Hno in Hok. by rewrite bool_decide_true in Hok.
    + rewrite IH. split.
      * intros (pre & l & post & -> & Hpre & Hc & Hn & ->).
        exists (l0 :: pre), l, post. split_and!; [done| |done..].
        constructor; [by apply check_python_code_test|done].
      * intros ([|l1 pre] & l & post & Heq & Hpre & Hc & Hn & ->).
        -- injection Heq as <- _.
           rewrite Hc, Hn in Htest. by rewrite bool_decide_true in Htest.
        -- injection Heq as <- ->. apply Forall_cons in Hpre as [_ Hpre].
           by exists pre, l, post.
Qed.

(** X11. [check_python_code] accepts a recordset exactly when every line
    of it is in order, so it accepts two recordsets put together exactly
    when it accepts both; on the whole it stops where it stops on the first
    part, and else where it stops on the second. *)
Theorem check_python_code_app (a b : list line) :
  (check_python_code a = Return tt ↔ Forall has_formula_if_computed a)
  ∧ check_python_code (a ++ b)
    = match check_python_code a with
      | Return _ => check_python_code b
      | Raise e => Raise e
      end
  ∧ (check_python_code (a ++ b) = Return tt
     ↔ check_python_code a = Return tt ∧ check_python_code b = Return tt).
Proof.
  assert (∀ ls, check_python_code ls = Return tt
                ↔ Forall has_formula_if_computed ls) as Hok.
  { induction ls as [|l ls IH]; simpl; [by split; [constructor|]|].
    rewrite Forall_cons, <- IH, <- check_python_code_test.
    destruct (_ && _); naive_solver. }
  split_and!; [apply Hok| |by rewrite !Hok, Forall_app].
  induction a as [|l a IH]; simpl; [done|]. by destruct (_ && _).
Qed.

(** ** Runs for the further properties *)

Lemma compute_lines_keys_grow_witness :
  run_compute_lines template_chain caller_dict (store_with known_one)
  = (Raise (FormulaReferenceError 3 (Some "L9")),
     store_with (<[2 := (200 # 1)%Q]> known_one))
  ∧ dom (store_with known_one !!! caller_dict)
    ⊆ dom (store_with (<[2 := (200 # 1)%Q]> known_one) !!! caller_dict)
  ∧ dom (store_with (<[2 := (200 # 1)%Q]> known_one) !!! caller_dict)
    ⊆ dom (store_with known_one !!! caller_dict)
      ∪ list_to_set (sequence <$> computed_lines template_chain).
Proof.
  assert (run_compute_lines template_chain caller_dict (store_with known_one)
          = (Raise (FormulaReferenceError 3 (Some "L9")),
             store_with (<[2 := (200 # 1)%Q]> known_one))) as Hrun
    by by_evaluation.
  split; [exact Hrun|].
  exact (compute_lines_keys_grow safe_eval_model float_round_model
           template_chain caller_dict _ _ _ Hrun).
Defined.

Lemma compute_lines_supplied_amounts_kept_witness :
  sequence_template_uniq template_chain
  ∧ run_compute_lines template_chain caller_dict (store_with known_one)
    = (Raise (FormulaReferenceError 3 (Some "L9")),
       store_with (<[2 := (200 # 1)%Q]> known_one))
  ∧ 1 ∈ dom (store_with known_one !!! caller_dict)
  ∧ (store_with (<[2 := (200 # 1)%Q]> known_one) !!! caller_dict) !! 1
    = (store_with known_one !!! caller_dict) !! 1.
Proof.
  assert (sequence_template_uniq template_chain) as Hu by uniq_by_evaluation.
  assert (run_compute_lines template_chain caller_dict (store_with known_one)
          = (Raise (FormulaReferenceError 3 (Some "L9")),
             store_with (<[2 := (200 # 1)%Q]> known_one))) as Hrun
    by by_evaluation.
  assert (1 ∈ dom (store_with known_one !!! caller_dict)) as Hk
    by decided_by_evaluation.
  split_and!; [exact Hu|exact Hrun|exact Hk|].
  exact (compute_lines_supplied_amounts_kept safe_eval_model float_round_model
           template_chain caller_dict _ _ _ 1 Hu Hrun Hk).
Defined.

Lemma compute_lines_Return_distinct_inputs_witness :
  run_compute_lines template_sum caller_dict (store_with known_sum)
  = (Return caller_dict, store_with (<[3 := (15001 # 100)%Q]> known_sum))
  ∧ NoDup (sequence <$> input_lines template_sum).
Proof.
  assert (run_compute_lines template_sum caller_dict (store_with known_sum)
          = (Return caller_dict,
             store_with (<[3 := (15001 # 100)%Q]> known_sum))) as Hrun
    by by_evaluation.
  split; [exact Hrun|].
  exact (compute_lines_Return_distinct_inputs safe_eval_model float_round_model
           template_sum caller_dict _ _ _ Hrun).
Defined.

Lemma compute_lines_duplicate_input_KeyError_witness :
  Forall (λ l, sequence l ∈ dom (store_with known_one !!! caller_dict))
    (input_lines template_duplicate)
  ∧ ¬ NoDup (sequence <$> input_lines template_duplicate)
  ∧ ∃ l, l ∈ line_ids template_duplicate ∧ type l = input
         ∧ run_compute_lines template_duplicate caller_dict
             (store_with known_one)
           = (Raise (KeyError (sequence l)), store_with known_one).
Proof.
  assert (Forall (λ l, sequence l ∈ dom (store_with known_one !!! caller_dict))
            (input_lines template_duplicate)) as Hall
    by decided_by_evaluation.
  assert (¬ NoDup (sequence <$> input_lines template_duplicate)) as Hdup
    by decided_by_evaluation.
  split_and!; [exact Hall|exact Hdup|].
  exact (compute_lines_duplicate_input_KeyError safe_eval_model
           float_round_model template_duplicate caller_dict _ Hall Hdup).
Defined.

Lemma compute_lines_twice_witness :
  sequence_template_uniq template_sum
  ∧ computed_lines template_sum ≠ []
  ∧ run_compute_lines template_sum caller_dict (store_with known_sum)
    = (Return caller_dict, store_with (<[3 := (15001 # 100)%Q]> known_sum))
  ∧ run_compute_lines template_sum caller_dict
      (store_with (<[3 := (15001 # 100)%Q]> known_sum))
    = (Raise ExtraneousInputLine,
       store_with (<[3 := (15001 # 100)%Q]> known_sum)).
Proof.
  assert (sequence_template_uniq template_sum) as Hu by uniq_by_evaluation.
  assert (computed_lines template_sum ≠ []) as Hne by decided_by_evaluation.
  assert (run_compute_lines template_sum caller_dict (store_with known_sum)
          = (Return caller_dict,
             store_with (<[3 := (15001 # 100)%Q]> known_sum))) as Hrun
    by by_evaluation.
  split_and!; [exact Hu|exact Hne|exact Hrun|].
  exact (compute_lines_twice safe_eval_model float_round_model
           template_sum caller_dict _ _ _ Hu Hne Hrun).
Defined.

Lemma compute_lines_computed_amounts_rounded_witness :
  run_compute_lines template_sum caller_dict (store_with known_sum)
  = (Return caller_dict, store_with (<[3 := (15001 # 100)%Q]> known_sum))
  ∧ mk_line 3 3 computed (Some "L1+L2") ∈ line_ids template_sum
  ∧ ∃ v rounded,
      float_round_model v (rounding template_sum) = inl rounded
      ∧ (store_with (<[3 := (15001 # 100)%Q]> known_sum) !!! caller_dict)
          !! sequence (mk_line 3 3 computed (Some "L1+L2"))
        = Some rounded.
Proof.
  assert (run_compute_lines template_sum caller_dict (store_with known_sum)
          = (Return caller_dict,
             store_with (<[3 := (15001 # 100)%Q]> known_sum))) as Hrun
    by by_evaluation.
  assert (mk_line 3 3 computed (Some "L1+L2") ∈ line_ids template_sum) as Hl
    by decided_by_evaluation.
  split_and!; [exact Hrun|exact Hl|].
  exact (compute_lines_computed_amounts_rounded safe_eval_model
           float_round_model template_sum caller_dict _ _ _ _ Hrun Hl eq_refl).
Defined.

Lemma compute_lines_computed_amount_witness :
  sequence_template_uniq template_thirds
  ∧ run_compute_lines template_thirds caller_dict (store_with known_unit)
    = (Return caller_dict,
       store_with (<[3 := (99 # 100)%Q]> (<[2 := (33 # 100)%Q]> known_unit)))
  ∧ computed_lines template_thirds = [] ++ third_line :: [triple_line]
  ∧ ∃ v rounded,
      safe_eval_model (python_code third_line)
        (build_safe_eval_dict
           (map_to_list
              (filter (λ kv : Z * Q,
                         kv.1 ∉ sequence <$> third_line :: [triple_line])
                 (store_with
                    (<[3 := (99 # 100)%Q]> (<[2 := (33 # 100)%Q]> known_unit))
                  !!! caller_dict)))) = inl v
      ∧ float_round_model v (rounding template_thirds) = inl rounded
      ∧ (store_with (<[3 := (99 # 100)%Q]> (<[2 := (33 # 100)%Q]> known_unit))
         !!! caller_dict) !! sequence third_line
        = Some rounded.
Proof.
  assert (sequence_template_uniq template_thirds) as Hu by uniq_by_evaluation.
  assert (run_compute_lines template_thirds caller_dict (store_with known_unit)
          = (Return caller_dict,
             store_with
               (<[3 := (99 # 100)%Q]> (<[2 := (33 # 100)%Q]> known_unit))))
    as Hrun by by_evaluation.
  assert (computed_lines template_thirds = [] ++ third_line :: [triple_line])
    as Hsplit by by_evaluation.
  split_and!; [exact Hu|exact Hrun|exact Hsplit|].
  exact (compute_lines_computed_amount safe_eval_model float_round_model
           template_thirds caller_dict _ _ _ _ _ _ Hu Hrun Hsplit).
Defined.

Lemma safe_eval_dict_round_trip_witness :
  reverse (map_to_list known_sum) ≡ₚ map_to_list known_sum
  ∧ build_safe_eval_dict (reverse (map_to_list known_sum)) !! L_name 2
    = known_sum !! 2
  ∧ size (build_safe_eval_dict (reverse (map_to_list known_sum)))
    = size known_sum.
Proof.
  assert (reverse (map_to_list known_sum) ≡ₚ map_to_list known_sum) as Hperm
    by apply reverse_Permutation.
  destruct (safe_eval_dict_round_trip known_sum _ Hperm) as (Hget & _ & Hsize).
  split_and!; [exact Hperm|exact (Hget 2)|exact Hsize].
Defined.

(** A rounding that gives up above 100: the sum of [template_sum] is
    evaluated and stored, its rounding raises, and the sum stays in the
    dictionary as it was evaluated. *)
Lemma compute_lines_exceptions_pass_through_witness :
  reconcile_inputs template_sum caller_dict (store_with known_sum)
  = (Return tt, store_with known_sum)
  ∧ computed_lines template_sum = [] ++ mk_line 3 3 computed (Some "L1+L2") :: []
  ∧ safe_eval_model (Some "L1+L2")
      (build_safe_eval_dict (map_to_list (store_with known_sum !!! caller_dict)))
    = inl (30001 # 200)%Q
  ∧ float_round_within (100 # 1) (30001 # 200) (rounding template_sum)
    = inr (OtherException "OverflowError")
  ∧ compute_lines safe_eval_model (float_round_within (100 # 1)) template_sum
      caller_dict (store_with known_sum)
    = (Raise (OtherException "OverflowError"),
       store_with (<[3 := (30001 # 200)%Q]> known_sum)).
Proof.
  assert (reconcile_inputs template_sum caller_dict (store_with known_sum)
          = (Return tt, store_with known_sum)) as Hrec by by_evaluation.
  assert (computed_lines template_sum
          = [] ++ mk_line 3 3 computed (Some "L1+L2") :: []) as Hsplit
    by by_evaluation.
  assert (safe_eval_model (Some "L1+L2")
            (build_safe_eval_dict
               (map_to_list (store_with known_sum !!! caller_dict)))
          = inl (30001 # 200)%Q) as Hev by by_evaluation.
  assert (float_round_within (100 # 1) (30001 # 200) (rounding template_sum)
          = inr (OtherException "OverflowError")) as Hround by by_evaluation.
  split_and!; [exact Hrec|exact Hsplit|exact Hev|exact Hround|].
  destruct (compute_lines_exceptions_pass_through safe_eval_model
              (float_round_within (100 # 1)) template_sum caller_dict
              (store_with known_sum) [] (mk_line 3 3 computed (Some "L1+L2")) []
              (store_with known_sum) Hrec Hsplit eq_refl) as [Hrounding _].
  etransitivity; [exact (Hrounding _ _ Hev Hround)|by_evaluation].
Defined.
